(** * Order lifecycle of the market-making strategy (strategy.py)

    A shallow embedding of [Strategy] from [strategy.py]: the event loop
    [run], the optimistic order ledger [active_orders] (a Python
    [OrderedDict]), the lifetime sweep at the end of each loop iteration,
    the quoting policy applied to order book snapshots, the position
    accounting on own trades, the id generator [next_order_id] and the log
    file written at the start of every iteration.

    Python integers (timestamps in nanoseconds, client order ids, the order
    lifetime) are unbounded and are modelled by [Z].  Python floats (sizes,
    prices, the position, [max_position]) are IEEE 754 binary64 numbers and
    are modelled by the primitive floats of Rocq, which are the same
    format. *)

From Stdlib Require Import ZArith List Bool Lia Sorted.
From Stdlib Require Import Floats.
Import ListNotations.
Open Scope Z_scope.

(* Decimal literals are rounded to the nearest binary64 value, as Python
   rounds them. *)
Set Warnings "-inexact-float".

(** ** Data delivered by the exchange simulator

    The classes below live in [simulator.py]; [strategy.py] only constructs
    and reads them.  Each record lists the attributes that [strategy.py]
    reads or writes. *)

(** The two order sides, the strings ['BID'] and ['ASK'] of the source. *)
Inductive Side : Set := BID | ASK.

Definition Side_eqb (a b : Side) : bool :=
  match a, b with
  | BID, BID | ASK, ASK => true
  | _, _ => false
  end.

Module Order.
(** Modelled from the spec: the [Order] class of [simulator.py], with the
    keyword arguments of the two constructor calls in [Strategy.run] and the
    attribute [receive_ts] read from an acknowledged action.  The strategy
    never sets [receive_ts] (it stays [None]); the simulator may. *)
Record t : Set := make {
  client_ts : Z;
  client_order_id : Z;
  side : Side;
  size : float;
  price : float;
  receive_ts : option Z
}.
End Order.

Module OrderCancel.
(** Modelled from the spec: the [OrderCancel] class of [simulator.py].  Its
    first positional argument receives [self.current_time], an
    [Optional[int]]. *)
Record t : Set := make {
  client_ts : option Z;
  client_order_id : Z;
  receive_ts : option Z
}.
End OrderCancel.

(** An action submitted to the simulator: [type(response.action)] is either
    [Order] or [OrderCancel]. *)
Inductive Action : Set :=
| ActOrder (order : Order.t)
| ActCancel (order_cancel : OrderCancel.t).

Definition action_receive_ts (a : Action) : option Z :=
  match a with
  | ActOrder o => Order.receive_ts o
  | ActCancel c => OrderCancel.receive_ts c
  end.

(** Modelled from the spec: the response codes of [simulator.py], of which
    [strategy.py] names only [ResponseCode.OK]. *)
Inductive ResponseCode : Set := OK | Rejected | NotFound.

Definition ResponseCode_eqb (a b : ResponseCode) : bool :=
  match a, b with
  | OK, OK | Rejected, Rejected | NotFound, NotFound => true
  | _, _ => false
  end.

Module OrderbookSnapshotUpdate.
(** Modelled from the spec: an order book snapshot; [bids] and [asks] are
    lists of (price, size) pairs, best first. *)
Record t : Set := make {
  receive_ts : Z;
  bids : list (float * float);
  asks : list (float * float)
}.
End OrderbookSnapshotUpdate.

Module AnonTrade.
(** Modelled from the spec: a public trade print; only [receive_ts] is
    read. *)
Record t : Set := make { receive_ts : Z }.
End AnonTrade.

Module MdUpdate.
(** Modelled from the spec: a market data update with an optional snapshot
    and an optional trade. *)
Record t : Set := make {
  receive_ts : Z;
  orderbook : option OrderbookSnapshotUpdate.t;
  trade : option AnonTrade.t
}.
End MdUpdate.

Module OwnTrade.
(** Modelled from the spec: a fill of one of the strategy's own orders. *)
Record t : Set := make {
  receive_ts : Z;
  client_order_id : Z;
  side : Side;
  size : float;
  price : float
}.
End OwnTrade.

Module ActionResponse.
(** Modelled from the spec: the acknowledgment of a submitted action, with
    the time at which the strategy receives it.  [Strategy.run] reads
    [action] and [code] only. *)
Record t : Set := make {
  receive_ts : Z;
  action : Action;
  code : ResponseCode
}.
End ActionResponse.

(** What [self.sim.tick()] returns when it is not [None]. *)
Inductive Update : Set :=
| UMdUpdate (update : MdUpdate.t)
| UOwnTrade (own_trade : OwnTrade.t)
| UActionResponse (response : ActionResponse.t).

(** ** The ordered dictionary of active orders

    [OrderedDict[int, Order]]: an association list in insertion order.
    Assigning to a key that is present replaces the value in place; assigning
    to a new key appends it. *)

Definition OrderedDict : Set := list (Z * Order.t).

Definition od_keys (d : OrderedDict) : list Z := map fst d.

(** [key in d] *)
Fixpoint od_contains (key : Z) (d : OrderedDict) : bool :=
  match d with
  | [] => false
  | (k, _) :: rest => if k =? key then true else od_contains key rest
  end.

(** [d[key] = value] *)
Fixpoint od_setitem (key : Z) (value : Order.t) (d : OrderedDict) : OrderedDict :=
  match d with
  | [] => [(key, value)]
  | (k, v) :: rest =>
      if k =? key then (key, value) :: rest
      else (k, v) :: od_setitem key value rest
  end.

(** [d.pop(key)]: the value and the remaining dictionary, [None] for the
    [KeyError] of an absent key. *)
Fixpoint od_pop (key : Z) (d : OrderedDict) : option (Order.t * OrderedDict) :=
  match d with
  | [] => None
  | (k, v) :: rest =>
      if k =? key then Some (v, rest)
      else match od_pop key rest with
           | Some (value, rest') => Some (value, (k, v) :: rest')
           | None => None
           end
  end.

(** ** The strategy object *)

(** The log file [self.log]: the lines written so far, oldest first, and
    whether the file has been closed.  A line is [str(update)], kept here as
    the update itself ([None] for the end of the stream).  Writing to a
    closed file raises [ValueError]; failures of the operating system while
    opening or writing the file are outside this model. *)
Record LogFile : Set := mkLogFile {
  written : list (option Update);
  closed : bool
}.

Record Strategy : Set := mkStrategy {
  (** actions received by [self.sim] so far, oldest first *)
  sim : list Action;
  max_position : float;
  order_lifetime : Z;
  current_time : option Z;
  orderbook : option OrderbookSnapshotUpdate.t;
  client_order_id : Z;
  active_orders : OrderedDict;
  pending_orders : OrderedDict;
  position_size_quote : float;
  (** number of calls of [random.choice] so far *)
  random_calls : nat;
  log : LogFile
}.

(** [Strategy.__init__] *)
Definition init (max_position : float) (order_lifetime : Z) : Strategy :=
  {| sim := [];
     max_position := max_position;
     order_lifetime := order_lifetime;
     current_time := None;
     orderbook := None;
     client_order_id := 1;
     active_orders := [];
     pending_orders := [];
     position_size_quote := 0%float;
     random_calls := O;
     log := mkLogFile [] false |}.

Definition set_sim (x : list Action) (self : Strategy) : Strategy :=
  mkStrategy x (max_position self) (order_lifetime self) (current_time self)
    (orderbook self) (client_order_id self) (active_orders self)
    (pending_orders self) (position_size_quote self) (random_calls self)
    (log self).

Definition set_current_time (x : option Z) (self : Strategy) : Strategy :=
  mkStrategy (sim self) (max_position self) (order_lifetime self) x
    (orderbook self) (client_order_id self) (active_orders self)
    (pending_orders self) (position_size_quote self) (random_calls self)
    (log self).

Definition set_orderbook (x : option OrderbookSnapshotUpdate.t) (self : Strategy)
  : Strategy :=
  mkStrategy (sim self) (max_position self) (order_lifetime self)
    (current_time self) x (client_order_id self) (active_orders self)
    (pending_orders self) (position_size_quote self) (random_calls self)
    (log self).

Definition set_client_order_id (x : Z) (self : Strategy) : Strategy :=
  mkStrategy (sim self) (max_position self) (order_lifetime self)
    (current_time self) (orderbook self) x (active_orders self)
    (pending_orders self) (position_size_quote self) (random_calls self)
    (log self).

Definition set_active_orders (x : OrderedDict) (self : Strategy) : Strategy :=
  mkStrategy (sim self) (max_position self) (order_lifetime self)
    (current_time self) (orderbook self) (client_order_id self) x
    (pending_orders self) (position_size_quote self) (random_calls self)
    (log self).

Definition set_position_size_quote (x : float) (self : Strategy) : Strategy :=
  mkStrategy (sim self) (max_position self) (order_lifetime self)
    (current_time self) (orderbook self) (client_order_id self)
    (active_orders self) (pending_orders self) x (random_calls self)
    (log self).

Definition set_random_calls (x : nat) (self : Strategy) : Strategy :=
  mkStrategy (sim self) (max_position self) (order_lifetime self)
    (current_time self) (orderbook self) (client_order_id self)
    (active_orders self) (pending_orders self) (position_size_quote self) x
    (log self).

Definition set_log (x : LogFile) (self : Strategy) : Strategy :=
  mkStrategy (sim self) (max_position self) (order_lifetime self)
    (current_time self) (orderbook self) (client_order_id self)
    (active_orders self) (pending_orders self) (position_size_quote self)
    (random_calls self) x.

(** Exceptions that the body of [run] can raise on the modelled data. *)
Inductive exn : Set := IndexError | TypeError | KeyError | ValueError.

(** The result of a piece of the loop body: it completes with a new state of
    the strategy object, or raises with the state reached at that point. *)
Inductive outcome : Set :=
| Done (self : Strategy)
| Raised (e : exn) (self : Strategy).

Definition state_of (r : outcome) : Strategy :=
  match r with
  | Done self => self
  | Raised _ self => self
  end.

(** [Strategy.place_order] *)
Definition place_order (order : Order.t) (self : Strategy) : Strategy :=
  let self := set_active_orders
                (od_setitem (Order.client_order_id order) order (active_orders self))
                self in
  set_sim (sim self ++ [ActOrder order]) self.

(** [Strategy.next_order_id]: the id returned and the updated object. *)
Definition next_order_id (self : Strategy) : Z * Strategy :=
  let cur_id := client_order_id self in
  (cur_id, set_client_order_id (client_order_id self + 1) self).

(** ** The body of the loop in [Strategy.run] *)

(** The branch [update.orderbook is not None] of a market data update
    (lines 64-83).  [rnd n] is the outcome of the [n]-th call of
    [random.choice(['BID', 'ASK'])].  The arguments of each [Order(...)]
    call are evaluated left to right: [next_order_id] runs before the
    subscript [bids[0][0]] (resp. [asks[0][0]]) can raise. *)
Definition on_orderbook (rnd : nat -> Side) (ob : OrderbookSnapshotUpdate.t)
    (self : Strategy) : outcome :=
  let self := set_orderbook (Some ob) self in
  let now := OrderbookSnapshotUpdate.receive_ts ob in
  let self := set_current_time (Some now) self in
  let '(bid_id, self) := next_order_id self in
  match OrderbookSnapshotUpdate.bids ob with
  | [] => Raised IndexError self
  | (bid_price, _) :: _ =>
      let order_best_bid :=
        Order.make (now + 20) bid_id BID 0.001%float bid_price None in
      let '(ask_id, self) := next_order_id self in
      match OrderbookSnapshotUpdate.asks ob with
      | [] => Raised IndexError self
      | (ask_price, _) :: _ =>
          let order_best_ask :=
            Order.make (now + 20) ask_id ASK 0.001%float ask_price None in
          if (position_size_quote self <? - max_position self)%float then
            Done (place_order order_best_bid self)
          else if (max_position self <? position_size_quote self)%float then
            Done (place_order order_best_ask self)
          else
            let side := rnd (random_calls self) in
            let self := set_random_calls (S (random_calls self)) self in
            if Side_eqb side BID then Done (place_order order_best_bid self)
            else Done (place_order order_best_ask self)
      end
  end.

(** The branch [type(update) == MdUpdate] up to line 88. *)
Definition on_md_update (rnd : nat -> Side) (update : MdUpdate.t)
    (self : Strategy) : outcome :=
  match MdUpdate.orderbook update with
  | Some ob => on_orderbook rnd ob self
  | None =>
      match MdUpdate.trade update with
      | Some trade =>
          Done (set_current_time (Some (AnonTrade.receive_ts trade)) self)
      | None =>
          Done (set_current_time (Some (MdUpdate.receive_ts update)) self)
      end
  end.

(** The branch [type(update) == OwnTrade] (lines 92-100). *)
Definition on_own_trade (own_trade : OwnTrade.t) (self : Strategy) : Strategy :=
  let self := set_current_time (Some (OwnTrade.receive_ts own_trade)) self in
  let self :=
    if od_contains (OwnTrade.client_order_id own_trade) (active_orders self) then
      match od_pop (OwnTrade.client_order_id own_trade) (active_orders self) with
      | Some (_, d) => set_active_orders d self
      | None => self
      end
    else self in
  if Side_eqb (OwnTrade.side own_trade) BID then
    set_position_size_quote
      (position_size_quote self + OwnTrade.size own_trade * OwnTrade.price own_trade)%float
      self
  else
    set_position_size_quote
      (position_size_quote self - OwnTrade.size own_trade * OwnTrade.price own_trade)%float
      self.

(** The branch [type(update) == ActionResponse] (lines 102-110). *)
Definition on_action_response (response : ActionResponse.t) (self : Strategy)
  : Strategy :=
  let self :=
    set_current_time (action_receive_ts (ActionResponse.action response)) self in
  match ActionResponse.action response with
  | ActOrder order =>
      if ResponseCode_eqb (ActionResponse.code response) OK then
        set_active_orders
          (od_setitem (Order.client_order_id order) order (active_orders self))
          self
      else self
  | ActCancel _ => self
  end.

(** The first loop of the sweep (lines 113-118): the keys collected before
    the first order still within its lifetime.  [None] is the [TypeError] of
    [None - int], raised when the first item is examined while
    [current_time] is [None]. *)
Fixpoint to_cancel (current_time : option Z) (order_lifetime : Z)
    (items : OrderedDict) : option (list Z) :=
  match items with
  | [] => Some []
  | (key, order) :: rest =>
      match current_time with
      | None => None
      | Some now =>
          if now - Order.client_ts order >? order_lifetime then
            match to_cancel current_time order_lifetime rest with
            | Some keys => Some (key :: keys)
            | None => None
            end
          else Some []
      end
  end.

(** The second loop of the sweep (lines 119-122). *)
Fixpoint cancel_keys (keys : list Z) (self : Strategy) : outcome :=
  match keys with
  | [] => Done self
  | key :: rest =>
      match od_pop key (active_orders self) with
      | None => Raised KeyError self
      | Some (order, d) =>
          let self := set_active_orders d self in
          let order_cancel :=
            OrderCancel.make (current_time self) (Order.client_order_id order) None in
          cancel_keys rest (set_sim (sim self ++ [ActCancel order_cancel]) self)
      end
  end.

(** Lines 112-122: cancel orders that are too old. *)
Definition cancel_old (self : Strategy) : outcome :=
  match to_cancel (current_time self) (order_lifetime self) (active_orders self) with
  | None => Raised TypeError self
  | Some keys => cancel_keys keys self
  end.

(** Lines 62-122 of one iteration of the loop, for an update that is not
    [None]: the dispatch and the sweep that follow the log write of line
    55. *)
Definition step (rnd : nat -> Side) (self : Strategy) (update : Update) : outcome :=
  match update with
  | UMdUpdate md =>
      match on_md_update rnd md self with
      | Raised e self => Raised e self
      | Done self =>
          match orderbook self with
          | None => Done self (* continue *)
          | Some _ => cancel_old self
          end
      end
  | UOwnTrade own_trade => cancel_old (on_own_trade own_trade self)
  | UActionResponse response => cancel_old (on_action_response response self)
  end.

(** Line 55, [self.log.write(str(update) + '\n')]. *)
Definition log_write (entry : option Update) (self : Strategy) : outcome :=
  if closed (log self) then Raised ValueError self
  else Done (set_log (mkLogFile (written (log self) ++ [entry]) false) self).

(** The object once line 55 has logged [update] to an open file. *)
Definition logged (update : Update) (self : Strategy) : Strategy :=
  set_log (mkLogFile (written (log self) ++ [Some update]) false) self.

(** One whole iteration of the loop for an update that is not [None]: the
    log write of line 55, then the dispatch and the sweep. *)
Definition iteration (rnd : nat -> Side) (self : Strategy) (update : Update)
  : outcome :=
  match log_write (Some update) self with
  | Done self => step rnd self update
  | Raised e self => Raised e self
  end.

(** The iteration in which [tick] returns [None] (lines 54-60): the log
    write, then [self.log.close()] and the end of the loop. *)
Definition finish (self : Strategy) : outcome :=
  match log_write None self with
  | Done self => Done (set_log (mkLogFile (written (log self)) true) self)
  | Raised e self => Raised e self
  end.

(** The loop of [Strategy.run] over the updates that [tick] returns before
    [None]; an exception ends the run.  The call of [Strategy.run] as a whole
    is [run_to_end], which adds the last iteration, [finish]. *)
Fixpoint run (rnd : nat -> Side) (self : Strategy) (updates : list Update)
  : outcome :=
  match updates with
  | [] => Done self
  | update :: rest =>
      match iteration rnd self update with
      | Done self => run rnd self rest
      | Raised e self => Raised e self
      end
  end.

(** [Strategy.run] when [tick] returns [updates] and then [None]. *)
Definition run_to_end (rnd : nat -> Side) (self : Strategy)
    (updates : list Update) : outcome :=
  match run rnd self updates with
  | Done self => finish self
  | Raised e self => Raised e self
  end.

(** The states after each update that was dispatched, in order; when the
    dispatch or the sweep of an update raises, the state reached at the raise
    is the last one.  An update whose log write raises is not dispatched. *)
Fixpoint run_states (rnd : nat -> Side) (self : Strategy) (updates : list Update)
  : list Strategy :=
  match updates with
  | [] => []
  | update :: rest =>
      match log_write (Some update) self with
      | Raised _ _ => []
      | Done self =>
          match step rnd self update with
          | Done self => self :: run_states rnd self rest
          | Raised _ self => [self]
          end
      end
  end.

(** The updates that the loop dispatched: all of them when the run completes,
    those up to the raising one otherwise. *)
Fixpoint processed (rnd : nat -> Side) (self : Strategy) (updates : list Update)
  : list Update :=
  match updates with
  | [] => []
  | update :: rest =>
      match log_write (Some update) self with
      | Raised _ _ => []
      | Done self =>
          match step rnd self update with
          | Done self => update :: processed rnd self rest
          | Raised _ _ => [update]
          end
      end
  end.

(** ** Notions used by the statements *)

(** The orders submitted through [sim.place_order], oldest first. *)
Fixpoint placed (actions : list Action) : list Order.t :=
  match actions with
  | [] => []
  | ActOrder order :: rest => order :: placed rest
  | ActCancel _ :: rest => placed rest
  end.

(** The ids of the cancel requests submitted through [sim.cancel_order]. *)
Fixpoint cancelled (actions : list Action) : list Z :=
  match actions with
  | [] => []
  | ActOrder _ :: rest => cancelled rest
  | ActCancel c :: rest => OrderCancel.client_order_id c :: cancelled rest
  end.

(** Number of cancel requests for [id] among [actions]. *)
Definition cancel_count (id : Z) (actions : list Action) : nat :=
  count_occ Z.eq_dec (cancelled actions) id.

(** The timestamp that the dispatch of an update writes to [current_time]. *)
Definition effective_ts (update : Update) : option Z :=
  match update with
  | UMdUpdate md =>
      match MdUpdate.orderbook md with
      | Some ob => Some (OrderbookSnapshotUpdate.receive_ts ob)
      | None =>
          match MdUpdate.trade md with
          | Some trade => Some (AnonTrade.receive_ts trade)
          | None => Some (MdUpdate.receive_ts md)
          end
      end
  | UOwnTrade own_trade => Some (OwnTrade.receive_ts own_trade)
  | UActionResponse response => action_receive_ts (ActionResponse.action response)
  end.

(** The age test of line 115. *)
Definition expired (now lifetime : Z) (item : Z * Order.t) : bool :=
  now - Order.client_ts (snd item) >? lifetime.

(** A sweep that examines every outstanding order, without stopping early. *)
Definition full_scan (now lifetime : Z) (items : OrderedDict) : list Z :=
  od_keys (filter (expired now lifetime) items).

(** The iteration order of the ledger is non-decreasing in creation time. *)
Definition ascending (items : OrderedDict) : Prop :=
  Sorted (fun a b => Order.client_ts (snd a) <= Order.client_ts (snd b)) items.

(** Keys are unique and every order is stored under its own id. *)
Definition ledger_wf (items : OrderedDict) : Prop :=
  NoDup (od_keys items) /\
  Forall (fun item => fst item = Order.client_order_id (snd item)) items.

(** The net exposure after one more fill. *)
Definition apply_fill (position : float) (fill : OwnTrade.t) : float :=
  match OwnTrade.side fill with
  | BID => (position + OwnTrade.size fill * OwnTrade.price fill)%float
  | ASK => (position - OwnTrade.size fill * OwnTrade.price fill)%float
  end.

(** The signed sum of the notionals of [fills], accumulated in order. *)
Definition signed_sum (fills : list OwnTrade.t) : float :=
  fold_left apply_fill fills 0%float.

(** The own trades among [updates], in order. *)
Fixpoint own_trades (updates : list Update) : list OwnTrade.t :=
  match updates with
  | [] => []
  | UOwnTrade fill :: rest => fill :: own_trades rest
  | _ :: rest => own_trades rest
  end.

(** [n] successive calls of [next_order_id]: the ids returned and the final
    object. *)
Fixpoint next_order_ids (n : nat) (self : Strategy) : list Z * Strategy :=
  match n with
  | O => ([], self)
  | S n' =>
      let '(id, self) := next_order_id self in
      let '(ids, self) := next_order_ids n' self in
      (id :: ids, self)
  end.

(** The two candidate orders of a snapshot processed when the id counter is
    [c]. *)
Definition bid_candidate (ob : OrderbookSnapshotUpdate.t) (c : Z) (p : float)
  : Order.t :=
  Order.make (OrderbookSnapshotUpdate.receive_ts ob + 20) c BID 0.001%float p None.

Definition ask_candidate (ob : OrderbookSnapshotUpdate.t) (c : Z) (p : float)
  : Order.t :=
  Order.make (OrderbookSnapshotUpdate.receive_ts ob + 20) (c + 1) ASK 0.001%float
    p None.

(** An update carrying an order book snapshot. *)
Definition snapshot (ts : Z) (ob : OrderbookSnapshotUpdate.t) : Update :=
  UMdUpdate (MdUpdate.make ts (Some ob) None).

(** A market data update with neither snapshot nor trade. *)
Definition heartbeat (ts : Z) : Update := UMdUpdate (MdUpdate.make ts None None).

(** [update] is an [ActionResponse] with code [OK] for an [Order] whose id is
    [id]: the update that line 108 turns into an insertion under [id]. *)
Definition confirms (id : Z) (update : Update) : bool :=
  match update with
  | UActionResponse response =>
      match ActionResponse.action response with
      | ActOrder order =>
          ResponseCode_eqb (ActionResponse.code response) OK
          && (Order.client_order_id order =? id)
      | ActCancel _ => false
      end
  | _ => false
  end.

(** The longest prefix whose elements satisfy [p], and what follows it. *)
Fixpoint take_while {A : Type} (p : A -> bool) (l : list A) : list A :=
  match l with
  | [] => []
  | x :: rest => if p x then x :: take_while p rest else []
  end.

Fixpoint drop_while {A : Type} (p : A -> bool) (l : list A) : list A :=
  match l with
  | [] => []
  | x :: rest => if p x then drop_while p rest else l
  end.

(** The cancel request of line 121 for a ledger item. *)
Definition cancel_of (now : option Z) (item : Z * Order.t) : Action :=
  ActCancel (OrderCancel.make now (Order.client_order_id (snd item)) None).

(** The state that a sweep at time [now] leaves: the expired prefix of the
    ledger is gone and one cancel request per removed order was sent. *)
Definition swept (now : Z) (self : Strategy) : Strategy :=
  let p := expired now (order_lifetime self) in
  set_sim (sim self ++ map (cancel_of (Some now)) (take_while p (active_orders self)))
    (set_active_orders (drop_while p (active_orders self)) self).

(** The state before the sweep of an iteration. *)
Definition dispatched (rnd : nat -> Side) (self : Strategy) (update : Update)
  : Strategy :=
  match update with
  | UMdUpdate md => state_of (on_md_update rnd md self)
  | UOwnTrade own_trade => on_own_trade own_trade self
  | UActionResponse response => on_action_response response self
  end.

(** The order that the policy of lines 74-83 quotes when the id counter is
    [c]. *)
Definition quoted (rnd : nat -> Side) (self : Strategy)
    (ob : OrderbookSnapshotUpdate.t) (bid_price ask_price : float) : Order.t :=
  let c := client_order_id self in
  if (position_size_quote self <? - max_position self)%float then
    bid_candidate ob c bid_price
  else if (max_position self <? position_size_quote self)%float then
    ask_candidate ob c ask_price
  else
    match rnd (random_calls self) with
    | BID => bid_candidate ob c bid_price
    | ASK => ask_candidate ob c ask_price
    end.

(** The ids of the orders placed so far are strictly increasing and below
    the id counter. *)
Definition ids_fresh (self : Strategy) : Prop :=
  StronglySorted Z.lt (map Order.client_order_id (placed (sim self))) /\
  Forall (fun id => 1 <= id < client_order_id self)
    (map Order.client_order_id (placed (sim self))).

(** ** Scenarios

    Concrete data for the examples: a book with best bid 100 and best ask
    101, constant and two-step random sources, and a strategy configured as
    in the script part of [strategy.py]. *)

Definition book (ts : Z) : OrderbookSnapshotUpdate.t :=
  OrderbookSnapshotUpdate.make ts [(100, 1)%float] [(101, 1)%float].

Definition always (side : Side) : nat -> Side := fun _ => side.

Definition ask_then_bid (n : nat) : Side :=
  match n with
  | O => ASK
  | S _ => BID
  end.

Definition fresh : Strategy := init 10000 100000000.

(** The BID order that the first snapshot [book 0] places, as created and as
    acknowledged at time [ts]. *)
Definition first_bid : Order.t := Order.make 20 1 BID 0.001 100 None.

Definition first_bid_acked (ts : Z) : Order.t :=
  Order.make 20 1 BID 0.001 100 (Some ts).

Definition fill_first_bid (ts : Z) : Update :=
  UOwnTrade (OwnTrade.make ts 1 BID 0.001 100).

(** The response to [order], received when the action says it was. *)
Definition respond (order : Order.t) (code : ResponseCode) : Update :=
  UActionResponse
    (ActionResponse.make
       (match Order.receive_ts order with Some ts => ts | None => 0 end)
       (ActOrder order) code).

(** A strategy with lifetime 100 holding order 1 (created at 20), at time
    121. *)
Definition aged : Strategy :=
  set_current_time (Some 121)
    (state_of (run (always BID) (init 10000 100) [snapshot 0 (book 0)])).

(** ** Notions used by the further properties *)

(** An update that the loop body handles without an exception: a snapshot
    has a best bid and a best ask, and the action of a response carries its
    [receive_ts]. *)
Definition handled (update : Update) : Prop :=
  match update with
  | UMdUpdate md =>
      match MdUpdate.orderbook md with
      | Some ob =>
          OrderbookSnapshotUpdate.bids ob <> [] /\
          OrderbookSnapshotUpdate.asks ob <> []
      | None => True
      end
  | UOwnTrade _ => True
  | UActionResponse response =>
      action_receive_ts (ActionResponse.action response) <> None
  end.

(** [P] holds of every update of a run and of the state in which the loop
    receives it. *)
Fixpoint along (P : Strategy -> Update -> Prop) (rnd : nat -> Side)
    (self : Strategy) (updates : list Update) : Prop :=
  match updates with
  | [] => True
  | update :: rest =>
      P self update /\
      match iteration rnd self update with
      | Done self' => along P rnd self' rest
      | Raised _ _ => True
      end
  end.

(** An [OK] response for an order acknowledges an order that is in the
    ledger under that id, with the same creation time. *)
Definition acks_live (self : Strategy) (update : Update) : Prop :=
  match update with
  | UActionResponse response =>
      match ActionResponse.action response with
      | ActOrder order =>
          ActionResponse.code response = OK ->
          exists stored,
            In (Order.client_order_id order, stored) (active_orders self) /\
            Order.client_ts stored = Order.client_ts order
      | ActCancel _ => True
      end
  | _ => True
  end.

(** An [OK] response for an order arrives while the id of that order is in
    the ledger. *)
Definition acks_present (self : Strategy) (update : Update) : Prop :=
  match update with
  | UActionResponse response =>
      match ActionResponse.action response with
      | ActOrder order =>
          ActionResponse.code response = OK ->
          od_contains (Order.client_order_id order) (active_orders self) = true
      | ActCancel _ => True
      end
  | _ => True
  end.

(** The update carries a timestamp that is not before [current_time]. *)
Definition on_time (self : Strategy) (update : Update) : Prop :=
  exists ts,
    effective_ts update = Some ts /\
    match current_time self with
    | Some now => now <= ts
    | None => True
    end.

(** Odd ids for BID orders, even ids for ASK orders. *)
Definition side_parity (order : Order.t) : Prop :=
  match Order.side order with
  | BID => Z.odd (Order.client_order_id order) = true
  | ASK => Z.even (Order.client_order_id order) = true
  end.

(** The creation times of the orders of a ledger, in iteration order. *)
Definition stamps (items : OrderedDict) : list Z :=
  map (fun item => Order.client_ts (snd item)) items.

(** Every key of the ledger is an id that the generator has issued. *)
Definition keys_issued (self : Strategy) : Prop :=
  Forall (fun key => key < client_order_id self) (od_keys (active_orders self)).

(** No id was cancelled twice, and an id that was cancelled has been issued
    and is out of the ledger. *)
Definition cancels_settled (self : Strategy) : Prop :=
  NoDup (cancelled (sim self)) /\
  Forall (fun id => id < client_order_id self /\
                    ~ In id (od_keys (active_orders self)))
    (cancelled (sim self)).

(** The ledger is in non-decreasing order of creation time, and no order in
    it was created later than 20 after the current time. *)
Definition in_creation_order (self : Strategy) : Prop :=
  StronglySorted Z.le (stamps (active_orders self)) /\
  match current_time self with
  | Some now => Forall (fun ts => ts <= now + 20) (stamps (active_orders self))
  | None => active_orders self = []
  end.

(** An order acknowledged at 30 and stored before any snapshot was seen, with
    lifetime 100. *)
Definition early_ack : Strategy :=
  state_of (run (always BID) (init 10000 100) [respond (first_bid_acked 30) OK]).

(** A strategy with lifetime 100 holding order 1 (created at 20) and order 3
    (created at 120), at time 125. *)
Definition aged_pair : Strategy :=
  set_current_time (Some 125)
    (state_of (run (always BID) (init 10000 100)
                 [snapshot 0 (book 0); snapshot 100 (book 100)])).

(** A strategy whose run has ended: its log is closed. *)
Definition finished : Strategy :=
  state_of (run_to_end (always BID) fresh [snapshot 0 (book 0)]).

(* Proof automation for the dispatch functions. *)
Ltac unfold_dispatch :=
  unfold on_md_update, on_orderbook, on_own_trade, on_action_response,
    next_order_id, place_order.

Ltac split_matches :=
  repeat match goal with
         | |- context [match ?x with _ => _ end] => destruct x eqn:?
         | |- context [if ?x then _ else _] => destruct x eqn:?
         end.

(** * Properties *)

(** ** The ordered dictionary *)

Lemma take_drop_while {A : Type} (p : A -> bool) (l : list A) :
  take_while p l ++ drop_while p l = l.
Proof.
  induction l as [|x l IH]; simpl; [reflexivity|].
  destruct (p x); simpl; [now rewrite IH | reflexivity].
Qed.

Lemma take_while_Forall {A : Type} (p : A -> bool) (l : list A) :
  Forall (fun x => p x = true) (take_while p l).
Proof.
  induction l as [|x l IH]; simpl; [constructor|].
  destruct (p x) eqn:E; constructor; assumption.
Qed.

Lemma od_contains_In (key : Z) (d : OrderedDict) :
  od_contains key d = true <-> In key (od_keys d).
Proof.
  induction d as [|[k v] d IH]; simpl.
  - split; [discriminate | tauto].
  - destruct (Z.eqb_spec k key) as [->|Hne].
    + split; auto.
    + rewrite IH. split; [auto | intros [H|H]; [contradiction | exact H]].
Qed.

Lemma od_contains_false (key : Z) (d : OrderedDict) :
  od_contains key d = false <-> ~ In key (od_keys d).
Proof.
  rewrite <- od_contains_In. destruct (od_contains key d); split; congruence.
Qed.

Lemma od_keys_setitem (key : Z) (value : Order.t) (d : OrderedDict) :
  od_keys (od_setitem key value d) =
  if od_contains key d then od_keys d else od_keys d ++ [key].
Proof.
  induction d as [|[k v] d IH]; simpl; [reflexivity|].
  destruct (Z.eqb_spec k key) as [->|Hne]; simpl; [reflexivity|].
  rewrite IH. destruct (od_contains key d); reflexivity.
Qed.

Lemma od_contains_setitem (key key' : Z) (value : Order.t) (d : OrderedDict) :
  od_contains key' (od_setitem key value d) = (key =? key') || od_contains key' d.
Proof.
  induction d as [|[k v] d IH]; simpl.
  - destruct (key =? key'); reflexivity.
  - destruct (Z.eqb_spec k key) as [->|Hne]; simpl.
    + destruct (key =? key'); reflexivity.
    + rewrite IH. destruct (k =? key'), (key =? key'); reflexivity.
Qed.

Lemma od_pop_keys (key : Z) (d d' : OrderedDict) (v : Order.t) :
  od_pop key d = Some (v, d') ->
  forall k, In k (od_keys d') -> In k (od_keys d).
Proof.
  revert d'. induction d as [|[k0 v0] d IH]; simpl; intros d' H k Hin; [discriminate|].
  destruct (k0 =? key).
  - injection H as <- <-. right. exact Hin.
  - destruct (od_pop key d) as [[v1 d1]|]; [|discriminate].
    injection H as <- <-. simpl in Hin. destruct Hin as [Hin|Hin]; [left; exact Hin|].
    right. eapply IH; [reflexivity | exact Hin].
Qed.

Lemma od_pop_items (key : Z) (d d' : OrderedDict) (v : Order.t) :
  od_pop key d = Some (v, d') ->
  forall item, In item d' -> In item d.
Proof.
  revert d'. induction d as [|[k0 v0] d IH]; simpl; intros d' H item Hin; [discriminate|].
  destruct (k0 =? key).
  - injection H as <- <-. right. exact Hin.
  - destruct (od_pop key d) as [[v1 d1]|]; [|discriminate].
    injection H as <- <-. simpl in Hin. destruct Hin as [Hin|Hin]; [left; exact Hin|].
    right. eapply IH; [reflexivity | exact Hin].
Qed.

Lemma od_pop_present (key : Z) (d : OrderedDict) :
  od_contains key d = true -> exists v d', od_pop key d = Some (v, d').
Proof.
  induction d as [|[k0 v0] d IH]; simpl; [discriminate|].
  destruct (k0 =? key); [eauto|].
  intros H. destruct (IH H) as (v & d' & ->). eauto.
Qed.

Lemma od_pop_absent (key : Z) (d : OrderedDict) :
  od_contains key d = false -> od_pop key d = None.
Proof.
  induction d as [|[k0 v0] d IH]; simpl; [reflexivity|].
  destruct (k0 =? key); [discriminate|].
  intros H. rewrite (IH H). reflexivity.
Qed.

Lemma od_pop_NoDup (key : Z) (d d' : OrderedDict) (v : Order.t) :
  od_pop key d = Some (v, d') -> NoDup (od_keys d) ->
  NoDup (od_keys d') /\ ~ In key (od_keys d').
Proof.
  revert d'. induction d as [|[k0 v0] d IH]; simpl; intros d' H Hnd; [discriminate|].
  inversion Hnd as [|? ? Hnotin Hnd']; subst.
  destruct (Z.eqb_spec k0 key) as [->|Hne].
  - injection H as <- <-. split; assumption.
  - destruct (od_pop key d) as [[v1 d1]|] eqn:E; [|discriminate].
    injection H as <- <-. destruct (IH d1 eq_refl Hnd') as [Hnd1 Hk].
    split.
    + simpl. constructor; [|exact Hnd1].
      intros Hin. apply Hnotin. eapply od_pop_keys; eauto.
    + simpl. intros [Heq|Hin]; [congruence | contradiction].
Qed.

(** ** The sweep in closed form *)

Lemma to_cancel_take_while (now lifetime : Z) (items : OrderedDict) :
  to_cancel (Some now) lifetime items =
  Some (od_keys (take_while (expired now lifetime) items)).
Proof.
  induction items as [|[key order] items IH]; simpl; [reflexivity|].
  unfold expired at 1. simpl.
  destruct (now - Order.client_ts order >? lifetime); [|reflexivity].
  rewrite IH. reflexivity.
Qed.

Lemma cancel_keys_prefix (pre : OrderedDict) :
  forall (self : Strategy) (rest : OrderedDict),
    active_orders self = pre ++ rest ->
    cancel_keys (od_keys pre) self =
    Done (set_sim (sim self ++ map (cancel_of (current_time self)) pre)
            (set_active_orders rest self)).
Proof.
  induction pre as [|[key order] pre IH]; intros self rest Hact; simpl.
  - simpl in Hact. rewrite app_nil_r. destruct self; simpl in *. subst. reflexivity.
  - rewrite Hact. simpl. rewrite Z.eqb_refl.
    rewrite (IH _ rest); [|reflexivity].
    unfold set_sim, set_active_orders, cancel_of. simpl.
    rewrite <- app_assoc. reflexivity.
Qed.

Lemma cancel_old_swept (self : Strategy) (now : Z) :
  current_time self = Some now -> cancel_old self = Done (swept now self).
Proof.
  intros Hnow. unfold cancel_old. rewrite Hnow, to_cancel_take_while.
  rewrite (cancel_keys_prefix _ self
             (drop_while (expired now (order_lifetime self)) (active_orders self))).
  - rewrite Hnow. reflexivity.
  - symmetry. apply take_drop_while.
Qed.

Lemma cancel_old_no_time (self : Strategy) :
  current_time self = None ->
  cancel_old self =
  match active_orders self with
  | [] => Done self
  | _ :: _ => Raised TypeError self
  end.
Proof.
  intros Hnow. unfold cancel_old. rewrite Hnow.
  destruct (active_orders self) as [|[key order] rest]; reflexivity.
Qed.

(** The sweep touches the ledger and the simulator only; when it raises, it
    has not changed the object. *)
Lemma cancel_old_cases (self : Strategy) :
  (exists now, current_time self = Some now /\ cancel_old self = Done (swept now self))
  \/ (current_time self = None /\ active_orders self = [] /\ cancel_old self = Done self)
  \/ (current_time self = None /\ cancel_old self = Raised TypeError self).
Proof.
  destruct (current_time self) as [now|] eqn:Hnow.
  - left. exists now. split; [reflexivity | now apply cancel_old_swept].
  - right. rewrite (cancel_old_no_time self Hnow).
    destruct (active_orders self); [left | right]; auto.
Qed.

Lemma placed_app (a b : list Action) : placed (a ++ b) = placed a ++ placed b.
Proof.
  induction a as [|[o|c] a IH]; simpl; [reflexivity | now rewrite IH | exact IH].
Qed.

Lemma cancelled_app (a b : list Action) :
  cancelled (a ++ b) = cancelled a ++ cancelled b.
Proof.
  induction a as [|[o|c] a IH]; simpl; [reflexivity | exact IH | now rewrite IH].
Qed.

Lemma placed_cancel_of (now : option Z) (items : OrderedDict) :
  placed (map (cancel_of now) items) = [].
Proof. induction items as [|item items IH]; simpl; [reflexivity | exact IH]. Qed.

Lemma cancelled_cancel_of (now : option Z) (items : OrderedDict) :
  cancelled (map (cancel_of now) items) =
  map (fun item => Order.client_order_id (snd item)) items.
Proof. induction items as [|item items IH]; simpl; [reflexivity | now rewrite IH]. Qed.

(** What the sweep leaves unchanged, whether it completes or raises. *)
Lemma cancel_old_frame (self : Strategy) :
  let self' := state_of (cancel_old self) in
  current_time self' = current_time self /\
  client_order_id self' = client_order_id self /\
  position_size_quote self' = position_size_quote self /\
  orderbook self' = orderbook self /\
  max_position self' = max_position self /\
  order_lifetime self' = order_lifetime self /\
  random_calls self' = random_calls self /\
  placed (sim self') = placed (sim self).
Proof.
  destruct (cancel_old_cases self) as [(now & Hnow & ->)|[(Hnow & Hact & ->)|(Hnow & ->)]];
    simpl; repeat split; try reflexivity.
  rewrite placed_app, placed_cancel_of, app_nil_r. reflexivity.
Qed.

(** ** One iteration of the loop *)

Lemma step_cases (rnd : nat -> Side) (self : Strategy) (update : Update) :
  state_of (step rnd self update) = dispatched rnd self update \/
  state_of (step rnd self update) = state_of (cancel_old (dispatched rnd self update)).
Proof.
  destruct update as [md|own_trade|response]; simpl; auto.
  destruct (on_md_update rnd md self) as [self1|e self1]; simpl; auto.
  destruct (orderbook self1); auto.
Qed.

Lemma dispatched_frame (rnd : nat -> Side) (self : Strategy) (update : Update) :
  let self' := dispatched rnd self update in
  current_time self' = effective_ts update /\
  max_position self' = max_position self /\
  order_lifetime self' = order_lifetime self /\
  position_size_quote self' =
    match update with
    | UOwnTrade fill => apply_fill (position_size_quote self) fill
    | _ => position_size_quote self
    end.
Proof.
  destruct update as [md|own_trade|response]; simpl; unfold_dispatch; unfold apply_fill.
  - destruct (MdUpdate.orderbook md) as [ob|]; [|destruct (MdUpdate.trade md)];
      simpl; repeat split; split_matches; reflexivity.
  - destruct (OwnTrade.side own_trade); simpl; repeat split; split_matches; reflexivity.
  - simpl; repeat split; split_matches; reflexivity.
Qed.

Lemma step_frame (rnd : nat -> Side) (self : Strategy) (update : Update) :
  let self' := state_of (step rnd self update) in
  current_time self' = effective_ts update /\
  max_position self' = max_position self /\
  order_lifetime self' = order_lifetime self /\
  position_size_quote self' =
    match update with
    | UOwnTrade fill => apply_fill (position_size_quote self) fill
    | _ => position_size_quote self
    end.
Proof.
  cbv zeta.
  destruct (dispatched_frame rnd self update) as (Ht & Hm & Hl & Hp).
  destruct (step_cases rnd self update) as [->| ->]; [auto|].
  destruct (cancel_old_frame (dispatched rnd self update))
    as (Ht' & _ & Hp' & _ & Hm' & Hl' & _).
  rewrite Ht', Hm', Hl', Hp'. auto.
Qed.

(** An iteration raises [ValueError] on a closed log without touching the
    object; on an open log it is the dispatch and sweep of the object with
    one more line in its log. *)
Lemma iteration_cases (rnd : nat -> Side) (self : Strategy) (update : Update) :
  (closed (log self) = true /\
   iteration rnd self update = Raised ValueError self /\
   log_write (Some update) self = Raised ValueError self) \/
  (closed (log self) = false /\
   iteration rnd self update = step rnd (logged update self) update /\
   log_write (Some update) self = Done (logged update self)).
Proof.
  unfold iteration, log_write, logged.
  destruct (closed (log self)); [left | right]; auto.
Qed.

Lemma run_app (rnd : nat -> Side) (a b : list Update) :
  forall self,
    run rnd self (a ++ b) =
    match run rnd self a with
    | Done self' => run rnd self' b
    | Raised e self' => Raised e self'
    end.
Proof.
  induction a as [|u a IH]; intros self; simpl; [reflexivity|].
  destruct (iteration rnd self u); [apply IH | reflexivity].
Qed.

Lemma processed_done (rnd : nat -> Side) (updates : list Update) :
  forall self self',
    run rnd self updates = Done self' -> processed rnd self updates = updates.
Proof.
  induction updates as [|u us IH]; intros self self' H; simpl in *; [reflexivity|].
  destruct (iteration_cases rnd self u) as [(_ & Hit & Hlw)|(_ & Hit & Hlw)];
    rewrite Hit in H; rewrite Hlw; [discriminate|].
  destruct (step rnd (logged u self) u) as [self1|e self1]; [|discriminate].
  f_equal. eapply IH. exact H.
Qed.

Lemma own_trades_app (a b : list Update) :
  own_trades (a ++ b) = own_trades a ++ own_trades b.
Proof.
  induction a as [|[md|fill|response] a IH]; simpl; try assumption;
    [reflexivity | now rewrite IH].
Qed.

Lemma run_position (rnd : nat -> Side) (updates : list Update) :
  forall self,
    position_size_quote (state_of (run rnd self updates)) =
    fold_left apply_fill (own_trades (processed rnd self updates))
      (position_size_quote self).
Proof.
  induction updates as [|u us IH]; intros self; simpl; [reflexivity|].
  destruct (iteration_cases rnd self u) as [(_ & Hit & Hlw)|(_ & Hit & Hlw)];
    rewrite Hit, Hlw; [reflexivity|].
  destruct (step_frame rnd (logged u self) u) as (_ & _ & _ & Hp).
  destruct (step rnd (logged u self) u) as [self1|e self1] eqn:Hstep; simpl in Hp.
  - rewrite IH, Hp. destruct u; reflexivity.
  - simpl. rewrite Hp. destruct u; reflexivity.
Qed.

(** ** Order book snapshots *)

Lemma on_orderbook_quoted (rnd : nat -> Side) (self : Strategy)
    (ob : OrderbookSnapshotUpdate.t) (pb sb pa sa : float)
    (bs as' : list (float * float)) :
  OrderbookSnapshotUpdate.bids ob = (pb, sb) :: bs ->
  OrderbookSnapshotUpdate.asks ob = (pa, sa) :: as' ->
  exists self1,
    on_orderbook rnd ob self = Done self1 /\
    orderbook self1 = Some ob /\
    current_time self1 = Some (OrderbookSnapshotUpdate.receive_ts ob) /\
    client_order_id self1 = client_order_id self + 2 /\
    order_lifetime self1 = order_lifetime self /\
    sim self1 = sim self ++ [ActOrder (quoted rnd self ob pb pa)] /\
    active_orders self1 =
      od_setitem (Order.client_order_id (quoted rnd self ob pb pa))
        (quoted rnd self ob pb pa) (active_orders self).
Proof.
  intros Hb Ha. unfold on_orderbook, quoted, bid_candidate, ask_candidate.
  rewrite Hb, Ha. simpl.
  destruct (position_size_quote self <? - max_position self)%float;
    [|destruct (max_position self <? position_size_quote self)%float;
      [|destruct (rnd (random_calls self))]];
    simpl; eexists; (split; [reflexivity|]); simpl;
    repeat split; try reflexivity; lia.
Qed.

Lemma snapshot_step (rnd : nat -> Side) (self : Strategy) (md : MdUpdate.t)
    (ob : OrderbookSnapshotUpdate.t) (pb sb pa sa : float)
    (bs as' : list (float * float)) :
  MdUpdate.orderbook md = Some ob ->
  OrderbookSnapshotUpdate.bids ob = (pb, sb) :: bs ->
  OrderbookSnapshotUpdate.asks ob = (pa, sa) :: as' ->
  exists self',
    step rnd self (UMdUpdate md) = Done self' /\
    client_order_id self' = client_order_id self + 2 /\
    placed (sim self') = placed (sim self) ++ [quoted rnd self ob pb pa].
Proof.
  intros Hob Hb Ha.
  destruct (on_orderbook_quoted rnd self ob pb sb pa sa bs as' Hb Ha)
    as (self1 & Hrun & Hbook & Hnow & Hid & _ & Hsim & _).
  unfold step, on_md_update. rewrite Hob, Hrun, Hbook.
  rewrite (cancel_old_swept self1 _ Hnow).
  eexists. split; [reflexivity|]. simpl. split; [exact Hid|].
  rewrite placed_app, placed_cancel_of, app_nil_r, Hsim, placed_app. reflexivity.
Qed.

Lemma snapshot_step_empty (rnd : nat -> Side) (self : Strategy) (md : MdUpdate.t)
    (ob : OrderbookSnapshotUpdate.t) :
  MdUpdate.orderbook md = Some ob ->
  OrderbookSnapshotUpdate.bids ob = [] \/ OrderbookSnapshotUpdate.asks ob = [] ->
  exists self', step rnd self (UMdUpdate md) = Raised IndexError self'.
Proof.
  intros Hob Hside. unfold step, on_md_update, on_orderbook. rewrite Hob. simpl.
  destruct (OrderbookSnapshotUpdate.bids ob) as [|[pb sb] bs].
  - eexists. reflexivity.
  - destruct Hside as [Hside|Hside]; [discriminate|]. rewrite Hside.
    eexists. reflexivity.
Qed.

(** For a bound that is not negative, the two guards of the policy exclude
    each other: a position above the bound is not below its opposite. *)
Lemma float_bounds_exclusive (m p : float) :
  (0 <=? m)%float = true -> (m <? p)%float = true -> (p <? - m)%float = false.
Proof.
  rewrite leb_spec, !ltb_spec, opp_spec.
  change (Prim2SF 0) with (S754_zero false).
  destruct (Prim2SF m) as [[]|[]| |[] mm em], (Prim2SF p) as [[]|[]| |[] mp ep];
    unfold SFleb, SFltb; simpl; try congruence; try reflexivity.
Qed.

(** C7.  For every order book snapshot with a best bid and a best ask: when
    the position is strictly below [- max_position], the order placed is the
    BID candidate at the best bid price, whatever the random source; else,
    when the position is strictly above [max_position], it is the ASK
    candidate at the best ask price, whatever the random source; otherwise
    the side is the one drawn from the random source. *)
Theorem quoting_policy (rnd : nat -> Side) (self : Strategy) (md : MdUpdate.t)
    (ob : OrderbookSnapshotUpdate.t) (pb sb pa sa : float)
    (bs as' : list (float * float)) :
  MdUpdate.orderbook md = Some ob ->
  OrderbookSnapshotUpdate.bids ob = (pb, sb) :: bs ->
  OrderbookSnapshotUpdate.asks ob = (pa, sa) :: as' ->
  let self' := state_of (step rnd self (UMdUpdate md)) in
  let c := client_order_id self in
  let below := (position_size_quote self <? - max_position self)%float in
  let above := (max_position self <? position_size_quote self)%float in
  (below = true ->
   placed (sim self') = placed (sim self) ++ [bid_candidate ob c pb]) /\
  (below = false -> above = true ->
   placed (sim self') = placed (sim self) ++ [ask_candidate ob c pa]) /\
  (below = false -> above = false ->
   placed (sim self') =
   placed (sim self) ++ [match rnd (random_calls self) with
                         | BID => bid_candidate ob c pb
                         | ASK => ask_candidate ob c pa
                         end]).
Proof.
  intros Hob Hb Ha.
  destruct (snapshot_step rnd self md ob pb sb pa sa bs as' Hob Hb Ha)
    as (self1 & -> & _ & Hplaced).
  cbv zeta. simpl. rewrite Hplaced. unfold quoted.
  repeat split; intros; repeat match goal with H : _ = _ |- _ => rewrite H end;
    reflexivity.
Qed.

(** With a bound that is not negative, a position strictly above
    [max_position] alone selects the ASK candidate. *)
Lemma quoting_policy_long (rnd : nat -> Side) (self : Strategy) (md : MdUpdate.t)
    (ob : OrderbookSnapshotUpdate.t) (pb sb pa sa : float)
    (bs as' : list (float * float)) :
  MdUpdate.orderbook md = Some ob ->
  OrderbookSnapshotUpdate.bids ob = (pb, sb) :: bs ->
  OrderbookSnapshotUpdate.asks ob = (pa, sa) :: as' ->
  (0 <=? max_position self)%float = true ->
  (max_position self <? position_size_quote self)%float = true ->
  placed (sim (state_of (step rnd self (UMdUpdate md)))) =
  placed (sim self) ++ [ask_candidate ob (client_order_id self) pa].
Proof.
  intros Hob Hb Ha Hpos Habove.
  destruct (snapshot_step rnd self md ob pb sb pa sa bs as' Hob Hb Ha)
    as (self1 & -> & _ & Hplaced).
  simpl. rewrite Hplaced. unfold quoted.
  rewrite (float_bounds_exclusive _ _ Hpos Habove), Habove. reflexivity.
Qed.

(** C9.  A snapshot whose bids and asks are both non-empty is handled without
    an exception: the two subscripts [bids[0][0]] and [asks[0][0]] are in
    bounds and the iteration completes.  A snapshot with an empty side raises
    [IndexError]. *)
Theorem snapshot_total (rnd : nat -> Side) (self : Strategy) (md : MdUpdate.t)
    (ob : OrderbookSnapshotUpdate.t) :
  MdUpdate.orderbook md = Some ob ->
  (OrderbookSnapshotUpdate.bids ob <> [] -> OrderbookSnapshotUpdate.asks ob <> [] ->
   exists self', step rnd self (UMdUpdate md) = Done self') /\
  (OrderbookSnapshotUpdate.bids ob = [] \/ OrderbookSnapshotUpdate.asks ob = [] ->
   exists self', step rnd self (UMdUpdate md) = Raised IndexError self').
Proof.
  intros Hob. split.
  - intros Hb Ha.
    destruct (OrderbookSnapshotUpdate.bids ob) as [|[pb sb] bs] eqn:Eb; [contradiction|].
    destruct (OrderbookSnapshotUpdate.asks ob) as [|[pa sa] as'] eqn:Ea; [contradiction|].
    destruct (snapshot_step rnd self md ob pb sb pa sa bs as' Hob Eb Ea)
      as (self1 & Hstep & _).
    exists self1. exact Hstep.
  - apply snapshot_step_empty. exact Hob.
Qed.

(** C6.  After any run, the position is the signed sum, accumulated in the
    order of arrival from the initial 0, of the notionals of the own trades
    dispatched: [+ size * price] for a BID fill, [- size * price] for an ASK
    fill.  An update of another kind leaves the position as it is, so the
    value depends only on the own trades and not on the market data between
    them. *)
Theorem position_accounting :
  (forall rnd max_position order_lifetime updates,
      position_size_quote
        (state_of (run rnd (init max_position order_lifetime) updates)) =
      signed_sum
        (own_trades (processed rnd (init max_position order_lifetime) updates))) /\
  (forall rnd self update,
      position_size_quote (state_of (step rnd self update)) =
      match update with
      | UOwnTrade fill => apply_fill (position_size_quote self) fill
      | _ => position_size_quote self
      end).
Proof.
  split.
  - intros. rewrite run_position. reflexivity.
  - intros. apply step_frame.
Qed.

Corollary position_interleaving (rnd1 rnd2 : nat -> Side) (m1 m2 : float)
    (l1 l2 : Z) (us1 us2 : list Update) (self1 self2 : Strategy) :
  run rnd1 (init m1 l1) us1 = Done self1 ->
  run rnd2 (init m2 l2) us2 = Done self2 ->
  own_trades us1 = own_trades us2 ->
  position_size_quote self1 = position_size_quote self2.
Proof.
  intros H1 H2 Heq.
  pose proof (run_position rnd1 us1 (init m1 l1)) as P1.
  pose proof (run_position rnd2 us2 (init m2 l2)) as P2.
  rewrite (processed_done _ _ _ _ H1), H1 in P1.
  rewrite (processed_done _ _ _ _ H2), H2 in P2.
  simpl in P1, P2. rewrite P1, P2, Heq. reflexivity.
Qed.

(** ** Client order ids *)

Lemma quoted_id (rnd : nat -> Side) (self : Strategy)
    (ob : OrderbookSnapshotUpdate.t) (pb pa : float) :
  let order := quoted rnd self ob pb pa in
  (Order.side order = BID /\ Order.client_order_id order = client_order_id self) \/
  (Order.side order = ASK /\ Order.client_order_id order = client_order_id self + 1).
Proof.
  unfold quoted.
  destruct (position_size_quote self <? - max_position self)%float;
    [|destruct (max_position self <? position_size_quote self)%float;
      [|destruct (rnd (random_calls self))]]; simpl; auto.
Qed.

Lemma dispatched_ids (rnd : nat -> Side) (self : Strategy) (update : Update) :
  let self' := dispatched rnd self update in
  let c := client_order_id self in
  c <= client_order_id self' <= c + 2 /\
  (placed (sim self') = placed (sim self) \/
   exists order,
     placed (sim self') = placed (sim self) ++ [order] /\
     c <= Order.client_order_id order < client_order_id self').
Proof.
  destruct update as [md|own_trade|response]; cbv zeta; simpl.
  - unfold on_md_update. destruct (MdUpdate.orderbook md) as [ob|].
    + destruct (OrderbookSnapshotUpdate.bids ob) as [|[pb sb] bs] eqn:Eb.
      { unfold on_orderbook. rewrite Eb. simpl. split; [lia | auto]. }
      destruct (OrderbookSnapshotUpdate.asks ob) as [|[pa sa] as'] eqn:Ea.
      { unfold on_orderbook. rewrite Eb. simpl. rewrite Ea. simpl. split; [lia | auto]. }
      destruct (on_orderbook_quoted rnd self ob pb sb pa sa bs as' Eb Ea)
        as (self1 & -> & _ & _ & Hid & _ & Hsim & _).
      simpl. rewrite Hid, Hsim, placed_app. split; [lia|].
      right. eexists. split; [reflexivity|].
      destruct (quoted_id rnd self ob pb pa) as [[_ ->]|[_ ->]]; lia.
    + destruct (MdUpdate.trade md); simpl; split; auto; lia.
  - unfold on_own_trade. split_matches; simpl; split; auto; lia.
  - unfold on_action_response. split_matches; simpl; split; auto; lia.
Qed.

Lemma step_ids (rnd : nat -> Side) (self : Strategy) (update : Update) :
  let self' := state_of (step rnd self update) in
  let c := client_order_id self in
  c <= client_order_id self' <= c + 2 /\
  (placed (sim self') = placed (sim self) \/
   exists order,
     placed (sim self') = placed (sim self) ++ [order] /\
     c <= Order.client_order_id order < client_order_id self').
Proof.
  cbv zeta. pose proof (dispatched_ids rnd self update) as H. cbv zeta in H.
  destruct (step_cases rnd self update) as [->| ->]; [exact H|].
  destruct (cancel_old_frame (dispatched rnd self update))
    as (_ & Hc & _ & _ & _ & _ & _ & Hp).
  rewrite Hc, Hp. exact H.
Qed.

Lemma StronglySorted_snoc (l : list Z) (x : Z) :
  StronglySorted Z.lt l -> Forall (fun y => y < x) l -> StronglySorted Z.lt (l ++ [x]).
Proof.
  induction l as [|a l IH]; intros Hs Hf; simpl.
  - constructor; constructor.
  - inversion Hs; subst. inversion Hf; subst.
    constructor; [apply IH; assumption|].
    apply Forall_app. split; [assumption | constructor; [assumption | constructor]].
Qed.

Lemma step_ids_fresh (rnd : nat -> Side) (self : Strategy) (update : Update) :
  1 <= client_order_id self ->
  ids_fresh self -> ids_fresh (state_of (step rnd self update)).
Proof.
  intros Hone [Hs Hf]. destruct (step_ids rnd self update) as [Hc Hp].
  unfold ids_fresh. destruct Hp as [->|(order & -> & Ho)].
  - split; [exact Hs|]. eapply Forall_impl; [|exact Hf]. simpl. intros; lia.
  - rewrite map_app. simpl. split.
    + apply StronglySorted_snoc; [exact Hs|].
      eapply Forall_impl; [|exact Hf]. simpl. intros; lia.
    + apply Forall_app. split.
      * eapply Forall_impl; [|exact Hf]. simpl. intros; lia.
      * constructor; [lia | constructor].
Qed.

Lemma run_ids_fresh (rnd : nat -> Side) (updates : list Update) :
  forall self,
    1 <= client_order_id self ->
    ids_fresh self -> ids_fresh (state_of (run rnd self updates)).
Proof.
  induction updates as [|u us IH]; intros self Hone Hfresh; simpl; [exact Hfresh|].
  destruct (iteration_cases rnd self u) as [(_ & Hit & Hlw)|(_ & Hit & Hlw)];
    rewrite ?Hit, ?Hlw; [exact Hfresh|].
  pose proof (step_ids_fresh rnd (logged u self) u Hone Hfresh) as Hnext.
  pose proof (step_ids rnd (logged u self) u) as [Hc _].
  destruct (step rnd (logged u self) u) as [self1|e self1]; simpl in *;
    [|exact Hnext].
  apply IH; [lia | exact Hnext].
Qed.

Lemma StronglySorted_lt_NoDup (l : list Z) : StronglySorted Z.lt l -> NoDup l.
Proof.
  induction 1 as [|a l Hs IH Hf]; constructor; [|exact IH].
  intros Hin. rewrite Forall_forall in Hf. specialize (Hf a Hin). lia.
Qed.

Lemma next_order_ids_spec (n : nat) :
  forall self,
    fst (next_order_ids n self) =
      map (fun i => client_order_id self + Z.of_nat i) (seq 0 n) /\
    client_order_id (snd (next_order_ids n self)) = client_order_id self + Z.of_nat n.
Proof.
  induction n as [|n IH]; intros self.
  - simpl. split; [reflexivity | lia].
  - cbn [next_order_ids]. unfold next_order_id.
    specialize (IH (set_client_order_id (client_order_id self + 1) self)).
    destruct (next_order_ids n (set_client_order_id (client_order_id self + 1) self))
      as [ids self1].
    simpl in IH. destruct IH as [Hids Hc]. simpl. split.
    + rewrite Hids, <- seq_shift, map_map. f_equal; [lia|].
      apply map_ext. intros i. lia.
    + lia.
Qed.

Lemma offsets_sorted (c : Z) (n start : nat) :
  StronglySorted Z.lt (map (fun i => c + Z.of_nat i) (seq start n)).
Proof.
  revert start. induction n as [|n IH]; intros start; simpl; constructor.
  - apply IH.
  - apply Forall_forall. intros x Hx. apply in_map_iff in Hx.
    destruct Hx as (i & <- & Hi). apply in_seq in Hi. lia.
Qed.

(** C8.  The first call of [next_order_id] on a new strategy returns 1; a
    call returns exactly one more than the call before it; hence [n]
    successive calls return 1, 2, ..., n, which are strictly increasing and
    pairwise distinct. *)
Theorem next_order_id_sequence :
  (forall max_position order_lifetime,
      fst (next_order_id (init max_position order_lifetime)) = 1) /\
  (forall self,
      fst (next_order_id (snd (next_order_id self))) = fst (next_order_id self) + 1) /\
  (forall n max_position order_lifetime,
      fst (next_order_ids n (init max_position order_lifetime)) =
      map Z.of_nat (seq 1 n)) /\
  (forall n self,
      StronglySorted Z.lt (fst (next_order_ids n self)) /\
      NoDup (fst (next_order_ids n self))).
Proof.
  repeat split.
  - intros n mp ol. destruct (next_order_ids_spec n (init mp ol)) as [-> _].
    cbn [init client_order_id]. rewrite <- seq_shift, map_map.
    apply map_ext. intros i. lia.
  - destruct (next_order_ids_spec n self) as [-> _]. apply offsets_sorted.
  - destruct (next_order_ids_spec n self) as [-> _].
    apply StronglySorted_lt_NoDup, offsets_sorted.
Qed.

Lemma run_placed_extends (rnd : nat -> Side) (updates : list Update) :
  forall self,
    exists extra,
      placed (sim (state_of (run rnd self updates))) = placed (sim self) ++ extra /\
      Forall (fun order => client_order_id self <= Order.client_order_id order) extra.
Proof.
  induction updates as [|u us IH]; intros self; simpl.
  - exists []. rewrite app_nil_r. split; [reflexivity | constructor].
  - destruct (iteration_cases rnd self u) as [(_ & Hit & Hlw)|(_ & Hit & Hlw)];
      rewrite Hit.
    { exists []. simpl. rewrite app_nil_r. split; [reflexivity | constructor]. }
    pose proof (step_ids rnd (logged u self) u) as [Hc Hp].
    destruct (step rnd (logged u self) u) as [self1|e self1]; simpl in *.
    + destruct (IH self1) as (extra & -> & Hextra).
      assert (Hextra' : Forall (fun order =>
                          client_order_id self <= Order.client_order_id order) extra).
      { eapply Forall_impl; [|exact Hextra]. simpl. intros; lia. }
      destruct Hp as [->|(order & -> & Ho)].
      * exists extra. split; [reflexivity | exact Hextra'].
      * exists (order :: extra). rewrite <- app_assoc. split; [reflexivity|].
        constructor; [lia | exact Hextra'].
    + destruct Hp as [->|(order & -> & Ho)].
      * exists []. rewrite app_nil_r. split; [reflexivity | constructor].
      * exists [order]. split; [reflexivity|]. constructor; [lia | constructor].
Qed.

(** The id that a snapshot allocates to the candidate it does not place is
    the id of no order placed before or after. *)
Lemma unplaced_id_unused (rnd : nat -> Side) (before after : list Update)
    (m : float) (l : Z) (self : Strategy) (md : MdUpdate.t)
    (ob : OrderbookSnapshotUpdate.t) (order : Order.t) :
  run rnd (init m l) before = Done self ->
  MdUpdate.orderbook md = Some ob ->
  OrderbookSnapshotUpdate.bids ob <> [] ->
  OrderbookSnapshotUpdate.asks ob <> [] ->
  placed (sim (state_of (step rnd self (UMdUpdate md)))) =
    placed (sim self) ++ [order] ->
  let unused := match Order.side order with
                | BID => client_order_id self + 1
                | ASK => client_order_id self
                end in
  ~ In unused
      (map Order.client_order_id
         (placed (sim (state_of (run rnd (state_of (step rnd self (UMdUpdate md)))
                                   after))))).
Proof.
  intros Hrun Hob Hb Ha Hplaced unused.
  assert (Hfresh : ids_fresh self).
  { pose proof (run_ids_fresh rnd before (init m l)) as H. rewrite Hrun in H.
    apply H; [simpl; lia | split; simpl; constructor]. }
  destruct Hfresh as [_ Hbelow].
  destruct (OrderbookSnapshotUpdate.bids ob) as [|[pb sb] bs] eqn:Eb; [contradiction|].
  destruct (OrderbookSnapshotUpdate.asks ob) as [|[pa sa] as'] eqn:Ea; [contradiction|].
  destruct (snapshot_step rnd self md ob pb sb pa sa bs as' Hob Eb Ea)
    as (self1 & Hstep & Hid & Hq).
  rewrite Hstep in *. simpl state_of in *.
  rewrite Hq in Hplaced. apply app_inv_head in Hplaced. injection Hplaced as <-.
  destruct (run_placed_extends rnd after self1) as (extra & -> & Hextra).
  rewrite Hq, !map_app. simpl. intros Hin.
  apply in_app_or in Hin. destruct Hin as [Hin|Hin].
  - apply in_app_or in Hin. destruct Hin as [Hin|[Hin|[]]].
    + rewrite Forall_forall in Hbelow. specialize (Hbelow _ Hin).
      unfold unused in Hbelow.
      destruct (Order.side (quoted rnd self ob pb pa)); lia.
    + unfold unused in Hin.
      destruct (quoted_id rnd self ob pb pa) as [[Hs Hi]|[Hs Hi]];
        rewrite Hs in Hin; lia.
  - apply in_map_iff in Hin. destruct Hin as (o & Ho & Hin).
    rewrite Forall_forall in Hextra. specialize (Hextra _ Hin).
    unfold unused in Ho. destruct (Order.side (quoted rnd self ob pb pa)); lia.
Qed.

(** C10 (amended).  A snapshot with a best bid and a best ask advances the id
    counter by exactly 2 and places exactly one order, which carries the
    first of the two allocated ids when it is the BID candidate and the
    second when it is the ASK candidate.  Over a whole run the ids of the
    orders placed are strictly increasing and below the counter, and the id
    allocated to the candidate that was not placed is the id of no order
    placed in the run. *)
Theorem snapshot_ids :
  (forall rnd self md ob,
      MdUpdate.orderbook md = Some ob ->
      OrderbookSnapshotUpdate.bids ob <> [] ->
      OrderbookSnapshotUpdate.asks ob <> [] ->
      let self' := state_of (step rnd self (UMdUpdate md)) in
      client_order_id self' = client_order_id self + 2 /\
      exists order,
        placed (sim self') = placed (sim self) ++ [order] /\
        ((Order.side order = BID /\
          Order.client_order_id order = client_order_id self) \/
         (Order.side order = ASK /\
          Order.client_order_id order = client_order_id self + 1))) /\
  (forall rnd max_position order_lifetime updates,
      let self' := state_of (run rnd (init max_position order_lifetime) updates) in
      let ids := map Order.client_order_id (placed (sim self')) in
      StronglySorted Z.lt ids /\
      Forall (fun id => 1 <= id < client_order_id self') ids) /\
  (forall rnd max_position order_lifetime before self md ob order after,
      run rnd (init max_position order_lifetime) before = Done self ->
      MdUpdate.orderbook md = Some ob ->
      OrderbookSnapshotUpdate.bids ob <> [] ->
      OrderbookSnapshotUpdate.asks ob <> [] ->
      let self' := state_of (step rnd self (UMdUpdate md)) in
      placed (sim self') = placed (sim self) ++ [order] ->
      let unused := match Order.side order with
                    | BID => client_order_id self + 1
                    | ASK => client_order_id self
                    end in
      ~ In unused
          (map Order.client_order_id
             (placed (sim (state_of (run rnd self' after)))))).
Proof.
  split; [|split].
  - intros rnd self md ob Hob Hb Ha.
    destruct (OrderbookSnapshotUpdate.bids ob) as [|[pb sb] bs] eqn:Eb; [contradiction|].
    destruct (OrderbookSnapshotUpdate.asks ob) as [|[pa sa] as'] eqn:Ea; [contradiction|].
    destruct (snapshot_step rnd self md ob pb sb pa sa bs as' Hob Eb Ea)
      as (self1 & -> & Hid & Hplaced).
    simpl. split; [exact Hid|].
    exists (quoted rnd self ob pb pa). split; [exact Hplaced | apply quoted_id].
  - intros rnd mp ol updates. apply run_ids_fresh.
    + simpl. lia.
    + split; simpl; constructor.
  - intros rnd mp ol before self md ob order after Hrun Hob Hb Ha self' Hplaced.
    exact (unplaced_id_unused rnd before after mp ol self md ob order
             Hrun Hob Hb Ha Hplaced).
Qed.

(** ** The lifetime sweep *)

Lemma ascending_strong (items : OrderedDict) :
  ascending items ->
  StronglySorted (fun a b => Order.client_ts (snd a) <= Order.client_ts (snd b)) items.
Proof.
  apply Sorted_StronglySorted. intros a b c Hab Hbc. lia.
Qed.

Lemma filter_none {A : Type} (p : A -> bool) (l : list A) :
  (forall x, In x l -> p x = false) -> filter p l = [].
Proof.
  induction l as [|a l IH]; intros H; simpl; [reflexivity|].
  rewrite (H a (or_introl eq_refl)). apply IH. intros x Hx. apply H. now right.
Qed.

Lemma NoDup_app_excl {A : Type} (t d : list A) (x : A) :
  NoDup (t ++ d) -> In x t -> In x d -> False.
Proof.
  induction t as [|a t IH]; intros Hnd Ht Hd; [contradiction|].
  simpl in Hnd. inversion Hnd as [|? ? Hnotin Hnd']; subst.
  destruct Ht as [->|Ht].
  - apply Hnotin. apply in_or_app. right. exact Hd.
  - apply IH; assumption.
Qed.

Lemma take_while_filter (now lifetime : Z) (items : OrderedDict) :
  ascending items ->
  take_while (expired now lifetime) items = filter (expired now lifetime) items.
Proof.
  intros Hasc. apply ascending_strong in Hasc.
  induction Hasc as [|item items Hs IH Hf]; simpl; [reflexivity|].
  destruct (expired now lifetime item) eqn:E; [now rewrite IH|].
  symmetry. apply filter_none.
  intros x Hx. rewrite Forall_forall in Hf. specialize (Hf x Hx).
  unfold expired in *. lia.
Qed.

(** C5.  When the iteration order of the ledger is non-decreasing in creation
    time, the scan that stops at the first order still within its lifetime
    collects exactly the keys that a scan of the whole ledger collects: those
    of all the orders whose age [now - client_ts] exceeds the lifetime. *)
Theorem early_stop_is_full_scan (now lifetime : Z) (items : OrderedDict) :
  ascending items ->
  to_cancel (Some now) lifetime items = Some (full_scan now lifetime items).
Proof.
  intros Hasc. rewrite to_cancel_take_while. unfold full_scan.
  rewrite (take_while_filter now lifetime items Hasc). reflexivity.
Qed.

Lemma ledger_wf_ids (items : OrderedDict) :
  Forall (fun item => fst item = Order.client_order_id (snd item)) items ->
  map (fun item => Order.client_order_id (snd item)) items = od_keys items.
Proof.
  induction 1 as [|item items Hi Hf IH]; simpl; [reflexivity|].
  rewrite IH, Hi. reflexivity.
Qed.

Lemma swept_active (now : Z) (self : Strategy) :
  active_orders (swept now self) =
  drop_while (expired now (order_lifetime self)) (active_orders self).
Proof. reflexivity. Qed.

Lemma swept_cancelled (now : Z) (self : Strategy) :
  cancelled (sim (swept now self)) =
  cancelled (sim self) ++
  map (fun item => Order.client_order_id (snd item))
    (take_while (expired now (order_lifetime self)) (active_orders self)).
Proof.
  unfold swept. simpl. rewrite cancelled_app, cancelled_cancel_of. reflexivity.
Qed.

Lemma cancel_count_swept (now : Z) (self : Strategy) (id : Z) :
  ledger_wf (active_orders self) ->
  cancel_count id (sim (swept now self)) =
  (cancel_count id (sim self) +
   count_occ Z.eq_dec
     (od_keys (take_while (expired now (order_lifetime self)) (active_orders self)))
     id)%nat.
Proof.
  intros [_ Hids]. unfold cancel_count.
  rewrite swept_cancelled, count_occ_app. f_equal. f_equal.
  apply ledger_wf_ids.
  rewrite <- (take_drop_while (expired now (order_lifetime self)) (active_orders self))
    in Hids.
  apply Forall_app in Hids. tauto.
Qed.

(** C4 (amended).  Take an order stored in a well-formed ledger with creation
    time [T = client_ts], and a sweep at time [now] with lifetime [L].  While
    [now - T <= L] the sweep keeps the order and issues no cancel request for
    its id.  When [now - T > L], and the ledger is in non-decreasing order of
    creation time, the sweep removes the order and issues exactly one cancel
    request for its id. *)
Theorem lifetime_enforcement (self : Strategy) (key : Z) (order : Order.t) (now : Z) :
  ledger_wf (active_orders self) ->
  In (key, order) (active_orders self) ->
  current_time self = Some now ->
  let self' := state_of (cancel_old self) in
  (now - Order.client_ts order <= order_lifetime self ->
   In (key, order) (active_orders self') /\
   cancel_count key (sim self') = cancel_count key (sim self)) /\
  (ascending (active_orders self) ->
   now - Order.client_ts order > order_lifetime self ->
   od_contains key (active_orders self') = false /\
   cancel_count key (sim self') = S (cancel_count key (sim self))).
Proof.
  intros Hwf Hin Hnow. rewrite (cancel_old_swept self now Hnow). cbv zeta. simpl state_of.
  rewrite (cancel_count_swept now self key Hwf), swept_active.
  set (p := expired now (order_lifetime self)).
  pose proof (take_drop_while p (active_orders self)) as Hsplit.
  pose proof (take_while_Forall p (active_orders self)) as Htake.
  destruct Hwf as [Hnd _].
  rewrite <- Hsplit in Hnd, Hin. unfold od_keys in Hnd. rewrite map_app in Hnd.
  apply in_app_or in Hin.
  split.
  - intros Hyoung.
    assert (Hp : p (key, order) = false) by (unfold p, expired; simpl; lia).
    destruct Hin as [Hin|Hin].
    { rewrite Forall_forall in Htake. specialize (Htake _ Hin). congruence. }
    split; [exact Hin|].
    rewrite (proj1 (count_occ_not_In Z.eq_dec _ key)); [lia|].
    intros Hk. apply (in_map fst) in Hin. simpl in Hin.
    exact (NoDup_app_excl _ _ key Hnd Hk Hin).
  - intros Hasc Hold.
    assert (Hp : p (key, order) = true) by (unfold p, expired; simpl; lia).
    assert (Hin' : In (key, order) (take_while p (active_orders self))).
    { unfold p. rewrite (take_while_filter _ _ _ Hasc). apply filter_In.
      split; [|exact Hp]. rewrite <- Hsplit.
      destruct Hin as [H|H]; apply in_or_app; [left | right]; exact H. }
    apply (in_map fst) in Hin'. simpl in Hin'.
    split.
    + apply od_contains_false. unfold od_keys. intros Hd.
      exact (NoDup_app_excl _ _ key Hnd Hin' Hd).
    + apply NoDup_app_remove_r in Hnd.
      unfold od_keys. rewrite (proj1 (NoDup_count_occ' Z.eq_dec _) Hnd key Hin'). lia.
Qed.

(** ** Invariants of the ledger *)

Lemma od_setitem_wf (order : Order.t) (d : OrderedDict) :
  ledger_wf d -> ledger_wf (od_setitem (Order.client_order_id order) order d).
Proof.
  intros [Hnd Hids]. split.
  - rewrite od_keys_setitem.
    destruct (od_contains (Order.client_order_id order) d) eqn:E; [exact Hnd|].
    apply od_contains_false in E.
    apply NoDup_rev in Hnd. rewrite <- (rev_involutive (od_keys d ++ _)).
    apply NoDup_rev. rewrite rev_app_distr. simpl. constructor; [|exact Hnd].
    rewrite <- in_rev. exact E.
  - clear Hnd. induction d as [|[k v] d IH]; simpl.
    + constructor; [reflexivity | constructor].
    + inversion Hids; subst.
      destruct (k =? Order.client_order_id order); constructor; auto.
Qed.

Lemma od_pop_wf (key : Z) (d d' : OrderedDict) (v : Order.t) :
  od_pop key d = Some (v, d') -> ledger_wf d -> ledger_wf d'.
Proof.
  intros Hpop [Hnd Hids]. split.
  - exact (proj1 (od_pop_NoDup key d d' v Hpop Hnd)).
  - rewrite Forall_forall in *. intros item Hin. apply Hids.
    eapply od_pop_items; eauto.
Qed.

Lemma drop_while_wf (p : Z * Order.t -> bool) (d : OrderedDict) :
  ledger_wf d -> ledger_wf (drop_while p d).
Proof.
  intros [Hnd Hids]. rewrite <- (take_drop_while p d) in Hnd, Hids.
  unfold od_keys in Hnd. rewrite map_app in Hnd.
  apply NoDup_app_remove_l in Hnd. apply Forall_app in Hids. split; tauto.
Qed.

Lemma drop_while_incl {A : Type} (p : A -> bool) (l : list A) (x : A) :
  In x (drop_while p l) -> In x l.
Proof.
  intros H. rewrite <- (take_drop_while p l). apply in_or_app. now right.
Qed.

Lemma cancel_old_wf (self : Strategy) :
  ledger_wf (active_orders self) ->
  ledger_wf (active_orders (state_of (cancel_old self))).
Proof.
  intros Hwf.
  destruct (cancel_old_cases self) as [(now & _ & ->)|[(_ & _ & ->)|(_ & ->)]];
    simpl; [apply drop_while_wf|..]; exact Hwf.
Qed.

Lemma cancel_old_incl (self : Strategy) (item : Z * Order.t) :
  In item (active_orders (state_of (cancel_old self))) ->
  In item (active_orders self).
Proof.
  destruct (cancel_old_cases self) as [(now & _ & ->)|[(_ & _ & ->)|(_ & ->)]];
    simpl; [apply drop_while_incl|..]; auto.
Qed.

Lemma own_trade_active (own_trade : OwnTrade.t) (self : Strategy) :
  active_orders (on_own_trade own_trade self) =
  match od_pop (OwnTrade.client_order_id own_trade) (active_orders self) with
  | Some (_, d) => d
  | None => active_orders self
  end.
Proof.
  unfold on_own_trade. simpl.
  destruct (od_contains (OwnTrade.client_order_id own_trade) (active_orders self)) eqn:E.
  - destruct (od_pop_present _ _ E) as (v & d & ->).
    destruct (Side_eqb (OwnTrade.side own_trade) BID); reflexivity.
  - destruct (od_pop (OwnTrade.client_order_id own_trade) (active_orders self))
      as [[v d]|] eqn:Hpop.
    + rewrite (od_pop_absent _ _ E) in Hpop. discriminate.
    + destruct (Side_eqb (OwnTrade.side own_trade) BID); reflexivity.
Qed.

Lemma action_response_active (response : ActionResponse.t) (self : Strategy) :
  active_orders (on_action_response response self) =
  match ActionResponse.action response with
  | ActOrder order =>
      if ResponseCode_eqb (ActionResponse.code response) OK then
        od_setitem (Order.client_order_id order) order (active_orders self)
      else active_orders self
  | ActCancel _ => active_orders self
  end.
Proof.
  unfold on_action_response.
  destruct (ActionResponse.action response);
    [destruct (ResponseCode_eqb (ActionResponse.code response) OK)|]; reflexivity.
Qed.

(** The ledger after the dispatch of a market data update: the quoted order
    is stored under its id, or (no snapshot, or an exception) nothing
    changes. *)
Lemma md_update_active (rnd : nat -> Side) (md : MdUpdate.t) (self : Strategy) :
  active_orders (state_of (on_md_update rnd md self)) = active_orders self \/
  exists order,
    client_order_id self <= Order.client_order_id order /\
    active_orders (state_of (on_md_update rnd md self)) =
    od_setitem (Order.client_order_id order) order (active_orders self).
Proof.
  unfold on_md_update. destruct (MdUpdate.orderbook md) as [ob|].
  - destruct (OrderbookSnapshotUpdate.bids ob) as [|[pb sb] bs] eqn:Eb.
    { unfold on_orderbook. rewrite Eb. simpl. auto. }
    destruct (OrderbookSnapshotUpdate.asks ob) as [|[pa sa] as'] eqn:Ea.
    { unfold on_orderbook. rewrite Eb. simpl. rewrite Ea. simpl. auto. }
    destruct (on_orderbook_quoted rnd self ob pb sb pa sa bs as' Eb Ea)
      as (self1 & -> & _ & _ & _ & _ & _ & Hact).
    right. exists (quoted rnd self ob pb pa). split; [|exact Hact].
    destruct (quoted_id rnd self ob pb pa) as [[_ ->]|[_ ->]]; lia.
  - destruct (MdUpdate.trade md); simpl; auto.
Qed.

Lemma dispatched_wf (rnd : nat -> Side) (self : Strategy) (update : Update) :
  ledger_wf (active_orders self) ->
  ledger_wf (active_orders (dispatched rnd self update)).
Proof.
  intros Hwf. destruct update as [md|own_trade|response]; simpl.
  - destruct (md_update_active rnd md self) as [->|(order & _ & ->)];
      [exact Hwf | now apply od_setitem_wf].
  - rewrite own_trade_active.
    destruct (od_pop (OwnTrade.client_order_id own_trade) (active_orders self))
      as [[v d]|] eqn:Hpop; [|exact Hwf].
    eapply od_pop_wf; eauto.
  - rewrite action_response_active.
    destruct (ActionResponse.action response);
      [destruct (ResponseCode_eqb (ActionResponse.code response) OK)|];
      try exact Hwf.
    now apply od_setitem_wf.
Qed.

Lemma step_wf (rnd : nat -> Side) (self : Strategy) (update : Update) :
  ledger_wf (active_orders self) ->
  ledger_wf (active_orders (state_of (step rnd self update))).
Proof.
  intros Hwf. pose proof (dispatched_wf rnd self update Hwf) as Hd.
  destruct (step_cases rnd self update) as [->| ->];
    [exact Hd | now apply cancel_old_wf].
Qed.

(** Every state of a run that starts from a new strategy has a well-formed
    ledger. *)
Lemma run_states_wf (rnd : nat -> Side) (updates : list Update) :
  forall self,
    ledger_wf (active_orders self) ->
    Forall (fun self' => ledger_wf (active_orders self'))
      (run_states rnd self updates).
Proof.
  induction updates as [|u us IH]; intros self Hwf; simpl; [constructor|].
  destruct (iteration_cases rnd self u) as [(_ & Hit & Hlw)|(_ & Hit & Hlw)];
    rewrite ?Hit, ?Hlw; [constructor|].
  pose proof (step_wf rnd (logged u self) u Hwf) as Hnext.
  destruct (step rnd (logged u self) u) as [self1|e self1]; simpl in Hnext.
  - constructor; [exact Hnext | apply IH; exact Hnext].
  - constructor; [exact Hnext | constructor].
Qed.

(** ** Ids that left the ledger *)

Lemma dispatched_absent (rnd : nat -> Side) (self : Strategy) (update : Update)
    (id : Z) :
  id < client_order_id self ->
  od_contains id (active_orders self) = false ->
  confirms id update = false ->
  od_contains id (active_orders (dispatched rnd self update)) = false.
Proof.
  intros Hid Habs Hconf. destruct update as [md|own_trade|response]; simpl.
  - destruct (md_update_active rnd md self) as [->|(order & Hge & ->)]; [exact Habs|].
    rewrite od_contains_setitem, Habs.
    destruct (Z.eqb_spec (Order.client_order_id order) id); [lia | reflexivity].
  - rewrite own_trade_active.
    destruct (od_pop (OwnTrade.client_order_id own_trade) (active_orders self))
      as [[v d]|] eqn:Hpop; [|exact Habs].
    apply od_contains_false. apply od_contains_false in Habs.
    intros Hin. apply Habs. eapply od_pop_keys; eauto.
  - rewrite action_response_active. simpl in Hconf.
    destruct (ActionResponse.action response) as [order|c]; [|exact Habs].
    destruct (ResponseCode_eqb (ActionResponse.code response) OK); [|exact Habs].
    simpl in Hconf. rewrite od_contains_setitem, Hconf, Habs. reflexivity.
Qed.

Lemma step_absent (rnd : nat -> Side) (self : Strategy) (update : Update) (id : Z) :
  id < client_order_id self ->
  od_contains id (active_orders self) = false ->
  confirms id update = false ->
  od_contains id (active_orders (state_of (step rnd self update))) = false.
Proof.
  intros Hid Habs Hconf.
  pose proof (dispatched_absent rnd self update id Hid Habs Hconf) as Hd.
  destruct (step_cases rnd self update) as [->| ->]; [exact Hd|].
  apply od_contains_false. apply od_contains_false in Hd.
  intros Hin. apply Hd. unfold od_keys in *. apply in_map_iff in Hin.
  destruct Hin as (item & <- & Hin). apply in_map. eapply cancel_old_incl. exact Hin.
Qed.

(** A fill takes the id of its order out of the ledger. *)
Lemma own_trade_removes (rnd : nat -> Side) (self : Strategy) (fill : OwnTrade.t) :
  ledger_wf (active_orders self) ->
  od_contains (OwnTrade.client_order_id fill)
    (active_orders (state_of (step rnd self (UOwnTrade fill)))) = false.
Proof.
  intros [Hnd _].
  assert (Hd : od_contains (OwnTrade.client_order_id fill)
                 (active_orders (on_own_trade fill self)) = false).
  { rewrite own_trade_active.
    destruct (od_contains (OwnTrade.client_order_id fill) (active_orders self)) eqn:E.
    - destruct (od_pop_present _ _ E) as (v & d & Hpop). rewrite Hpop.
      apply od_contains_false. exact (proj2 (od_pop_NoDup _ _ _ _ Hpop Hnd)).
    - rewrite (od_pop_absent _ _ E). exact E. }
  simpl. apply od_contains_false. apply od_contains_false in Hd.
  intros Hin. apply Hd. unfold od_keys in *. apply in_map_iff in Hin.
  destruct Hin as (item & <- & Hin). apply in_map. eapply cancel_old_incl. exact Hin.
Qed.

(** C3 (amended).  Once an id that the generator has issued is absent from
    the ledger (its order was filled or swept), it is absent after every
    later update of a run in which no [ActionResponse] with code [OK]
    acknowledges an [Order] with that id. *)
Theorem no_reinsert_without_confirmation (rnd : nat -> Side)
    (updates : list Update) :
  forall (self : Strategy) (id : Z),
    id < client_order_id self ->
    od_contains id (active_orders self) = false ->
    Forall (fun update => confirms id update = false) updates ->
    Forall (fun self' => od_contains id (active_orders self') = false)
      (run_states rnd self updates).
Proof.
  induction updates as [|u us IH]; intros self id Hid Habs Hconf; simpl;
    [constructor|].
  inversion Hconf as [|? ? Hu Hus]; subst.
  destruct (iteration_cases rnd self u) as [(_ & Hit & Hlw)|(_ & Hit & Hlw)];
    rewrite ?Hit, ?Hlw; [constructor|].
  pose proof (step_absent rnd (logged u self) u id Hid Habs Hu) as Hnext.
  pose proof (step_ids rnd (logged u self) u) as [Hc _].
  destruct (step rnd (logged u self) u) as [self1|e self1]; simpl in *.
  - constructor; [exact Hnext|]. apply IH; [lia | exact Hnext | exact Hus].
  - constructor; [exact Hnext | constructor].
Qed.

(** ** The strategy-local clock *)




(** ** Scenarios *)


(** The loop does not order time itself: it copies the timestamp of each
    update.  Outside the contract of the event source, two updates stamped 5
    then 3 leave [current_time] at 5 then 3, and so does a response received
    at 12 whose action is stamped 5 after a heartbeat at 10. *)
Lemma time_can_decrease :
  map current_time (run_states (always BID) fresh [heartbeat 5; heartbeat 3]) =
  [Some 5; Some 3] /\
  map current_time
    (run_states (always BID) fresh
       [heartbeat 10;
        UActionResponse
          (ActionResponse.make 12 (ActOrder (first_bid_acked 5)) OK)]) =
  [Some 10; Some 5].
Proof. split; reflexivity. Qed.

(** The dispatch of a response whose code is not [OK] leaves the ledger as
    it is: nothing removes a rejected order. *)
Lemma rejection_keeps_ledger (response : ActionResponse.t) (self : Strategy) :
  ActionResponse.code response <> OK ->
  active_orders (on_action_response response self) = active_orders self.
Proof.
  intros Hcode. rewrite action_response_active.
  destruct (ActionResponse.action response) as [order|c]; [|reflexivity].
  destruct (ActionResponse.code response); [contradiction | reflexivity..].
Qed.

(** C2: the order placed on the first snapshot is still in the ledger after
    the simulator has rejected it. *)
Lemma rejected_order_stays_active :
  active_orders
    (state_of (run (always BID) fresh
                 [snapshot 0 (book 0); respond (first_bid_acked 10000000) Rejected])) =
  [(1, first_bid)].
Proof. reflexivity. Qed.

(** C3, as stated, fails: id 1 is placed on the snapshot, leaves the ledger
    on its fill, and is back after a later [OK] response for the same
    order. *)
Lemma reinserted_after_fill :
  map (fun self => od_contains 1 (active_orders self))
    (run_states (always BID) fresh
       [snapshot 0 (book 0); fill_first_bid 30; respond (first_bid_acked 40) OK]) =
  [true; false; true].
Proof. reflexivity. Qed.

(** After the fill of order 1, a heartbeat and a rejection leave id 1 out of
    the ledger. *)
Lemma no_reinsert_without_confirmation_witness :
  Forall (fun self' => od_contains 1 (active_orders self') = false)
    (run_states (always BID)
       (state_of (run (always BID) fresh [snapshot 0 (book 0); fill_first_bid 30]))
       [heartbeat 31; respond (first_bid_acked 40) Rejected]).
Proof.
  apply (no_reinsert_without_confirmation (always BID)
           [heartbeat 31; respond (first_bid_acked 40) Rejected]
           (state_of (run (always BID) fresh [snapshot 0 (book 0); fill_first_bid 30]))
           1).
  - reflexivity.
  - reflexivity.
  - repeat constructor.
Defined.

Lemma lifetime_enforcement_witness :
  od_contains 1 (active_orders (state_of (cancel_old aged))) = false /\
  cancel_count 1 (sim (state_of (cancel_old aged))) = S (cancel_count 1 (sim aged)).
Proof.
  apply (proj2 (lifetime_enforcement aged 1 first_bid 121
                  (conj (NoDup_cons 1 (fun H : In 1 [] => H) (NoDup_nil Z))
                        (Forall_cons (1, first_bid) eq_refl (Forall_nil _)))
                  (or_introl eq_refl) eq_refl)).
  - repeat constructor.
  - reflexivity.
Defined.

(** C4, as stated, fails.  With lifetime 100, order 1 created at 20 is still
    in the ledger, and no cancel request was sent, after the sweep at time
    120 = 20 + 100; it goes at 121.  And an expired order that sits behind a
    younger one is not reached: order 1 (created at 20, re-inserted by its
    acknowledgment behind order 3, created at 120) survives the sweep at
    125. *)
Lemma kept_at_lifetime :
  (let self := state_of (run (always BID) (init 10000 100)
                           [snapshot 0 (book 0); heartbeat 120]) in
   current_time self = Some 120 /\
   od_contains 1 (active_orders self) = true /\
   cancelled (sim self) = []) /\
  (let self := state_of (run (always BID) (init 10000 100)
                           [snapshot 0 (book 0); fill_first_bid 30;
                            snapshot 100 (book 100);
                            respond (first_bid_acked 110) OK; heartbeat 125]) in
   current_time self = Some 125 /\
   od_keys (active_orders self) = [3; 1] /\
   cancelled (sim self) = []).
Proof. repeat split. Qed.

(** Two orders in creation order, the first expired at 200 with lifetime
    100. *)
Lemma early_stop_is_full_scan_witness :
  to_cancel (Some 200) 100
    [(1, first_bid); (3, Order.make 120 3 BID 0.001 100 None)] =
  Some (full_scan 200 100
          [(1, first_bid); (3, Order.make 120 3 BID 0.001 100 None)]).
Proof.
  apply (early_stop_is_full_scan 200 100
           [(1, first_bid); (3, Order.make 120 3 BID 0.001 100 None)]).
  repeat constructor. discriminate.
Defined.

(** Stop-short: with position -10001 and bound 10000 the BID candidate at
    100 is placed although the random source says ASK. *)
Lemma quoting_policy_witness :
  placed (sim (state_of (step (always ASK)
                           (set_position_size_quote (-10001) fresh)
                           (snapshot 0 (book 0))))) =
  placed (sim (set_position_size_quote (-10001) fresh)) ++
  [bid_candidate (book 0) 1 100].
Proof.
  apply (proj1 (quoting_policy (always ASK) (set_position_size_quote (-10001) fresh)
                  (MdUpdate.make 0 (Some (book 0)) None) (book 0)
                  100 1 101 1 [] [] eq_refl eq_refl eq_refl)).
  reflexivity.
Defined.

Lemma snapshot_total_witness :
  exists self', step (always BID) fresh (snapshot 0 (book 0)) = Done self'.
Proof.
  apply (proj1 (snapshot_total (always BID) fresh
                  (MdUpdate.make 0 (Some (book 0)) None) (book 0) eq_refl));
    discriminate.
Defined.

Lemma snapshot_ids_witness :
  client_order_id (state_of (step (always BID) fresh (snapshot 0 (book 0)))) = 1 + 2 /\
  exists order,
    placed (sim (state_of (step (always BID) fresh (snapshot 0 (book 0))))) =
      placed (sim fresh) ++ [order] /\
    ((Order.side order = BID /\ Order.client_order_id order = 1) \/
     (Order.side order = ASK /\ Order.client_order_id order = 1 + 1)).
Proof.
  apply (proj1 snapshot_ids (always BID) fresh
           (MdUpdate.make 0 (Some (book 0)) None) (book 0) eq_refl);
    discriminate.
Defined.

(** C10, as stated, fails: an ASK on the first snapshot gets id 2 and a BID
    on the second gets id 3, two consecutive integers. *)
Lemma consecutive_ids :
  map Order.client_order_id
    (placed (sim (state_of (run ask_then_bid fresh
                              [snapshot 0 (book 0); snapshot 50 (book 50)])))) =
  [2; 3].
Proof. reflexivity. Qed.

(** Stop-long, and the expiry and fill scenarios of the specification. *)
Example stop_long :
  placed (sim (state_of (step (always BID)
                           (set_position_size_quote 10001 fresh)
                           (snapshot 0 (book 0))))) =
  [ask_candidate (book 0) 1 101].
Proof. reflexivity. Qed.

Example expiry :
  map (fun self => (od_keys (active_orders self), cancelled (sim self)))
    (run_states (always BID) (init 10000 100)
       [snapshot 0 (book 0); heartbeat 120; heartbeat 121; heartbeat 500]) =
  [([1], []); ([1], []); ([], [1]); ([], [1])].
Proof. reflexivity. Qed.

Example fill_removes :
  let self := state_of (run (always BID) fresh
                          [snapshot 0 (book 0); fill_first_bid 30; heartbeat 31]) in
  active_orders self = [] /\
  position_size_quote self = (0 + 0.001 * 100)%float.
Proof. split; reflexivity. Qed.

Example empty_bids_raise :
  exists self',
    step (always BID) fresh
      (snapshot 0 (OrderbookSnapshotUpdate.make 0 [] [(101, 1)%float])) =
    Raised IndexError self' /\
    client_order_id self' = 2.
Proof. eexists. split; reflexivity. Qed.

(** * Further properties of the loop *)

(** ** The sweep *)

(** X1.  A sweep at time [now] splits the ledger: the orders it removes are
    a prefix, all of them older than the lifetime; the first order it keeps,
    if any, is within its lifetime; and it sends one cancel request per
    removed order, in ledger order, stamped with [now]. *)
Theorem sweep_removes_expired_prefix (self : Strategy) (now : Z) :
  current_time self = Some now ->
  exists self' removed,
    cancel_old self = Done self' /\
    active_orders self = removed ++ active_orders self' /\
    Forall (fun item => now - Order.client_ts (snd item) > order_lifetime self)
      removed /\
    (forall item rest,
        active_orders self' = item :: rest ->
        now - Order.client_ts (snd item) <= order_lifetime self) /\
    sim self' =
      sim self ++
      map (fun item =>
             ActCancel
               (OrderCancel.make (Some now) (Order.client_order_id (snd item)) None))
        removed.
Proof.
  intros Hnow. rewrite (cancel_old_swept self now Hnow).
  exists (swept now self),
    (take_while (expired now (order_lifetime self)) (active_orders self)).
  split; [reflexivity|]. rewrite swept_active. repeat split.
  - symmetry. apply take_drop_while.
  - eapply Forall_impl; [|apply take_while_Forall].
    intros item H. simpl in H. unfold expired in H. lia.
  - intros item rest Hrest.
    induction (active_orders self) as [|a d IH]; simpl in Hrest; [discriminate|].
    destruct (expired now (order_lifetime self) a) eqn:E; [exact (IH Hrest)|].
    injection Hrest as <- _. unfold expired in E. lia.
Qed.

Lemma drop_while_head {A : Type} (p : A -> bool) (l : list A) :
  take_while p (drop_while p l) = [] /\ drop_while p (drop_while p l) = drop_while p l.
Proof.
  induction l as [|a l IH]; simpl; [split; reflexivity|].
  destruct (p a) eqn:E; [exact IH|]. simpl. rewrite E. split; reflexivity.
Qed.

(** X2.  A sweep that completed has nothing left to do: run again in the
    state it produced, it removes nothing and sends nothing. *)
Theorem sweep_idempotent (self self' : Strategy) :
  cancel_old self = Done self' -> cancel_old self' = Done self'.
Proof.
  intros H.
  destruct (cancel_old_cases self) as [(now & Hnow & Hs)|[(Hnow & Hact & Hs)|(_ & Hs)]];
    rewrite Hs in H; [| |discriminate]; injection H as <-.
  - rewrite (cancel_old_swept (swept now self) now) by exact Hnow.
    f_equal. unfold swept at 1. simpl.
    destruct (drop_while_head (expired now (order_lifetime self)) (active_orders self))
      as [-> ->].
    simpl. rewrite app_nil_r. reflexivity.
  - rewrite (cancel_old_no_time self Hnow), Hact. reflexivity.
Qed.

Lemma StronglySorted_app_r {A : Type} (R : A -> A -> Prop) (a b : list A) :
  StronglySorted R (a ++ b) -> StronglySorted R b.
Proof.
  induction a as [|x a IH]; simpl; intros H; [exact H|].
  inversion H; subst. apply IH. assumption.
Qed.

(** X3.  On a ledger in non-decreasing order of creation time, a sweep leaves
    no order older than the lifetime, and leaves the ledger in that order. *)
Theorem sweep_leaves_no_expired (self : Strategy) (now : Z) :
  current_time self = Some now ->
  ascending (active_orders self) ->
  exists self',
    cancel_old self = Done self' /\
    Forall (fun item => now - Order.client_ts (snd item) <= order_lifetime self)
      (active_orders self') /\
    ascending (active_orders self').
Proof.
  intros Hnow Hasc. rewrite (cancel_old_swept self now Hnow).
  exists (swept now self). split; [reflexivity|]. rewrite swept_active.
  set (p := expired now (order_lifetime self)).
  pose proof (take_drop_while p (active_orders self)) as Hsplit.
  pose proof (ascending_strong _ Hasc) as Hs.
  rewrite <- Hsplit in Hs. apply StronglySorted_app_r in Hs.
  split; [|apply StronglySorted_Sorted; exact Hs].
  clear Hsplit Hasc.
  destruct (drop_while p (active_orders self)) as [|a d] eqn:Ed; [constructor|].
  assert (Ha : p a = false).
  { clear Hs. induction (active_orders self) as [|x l IH]; simpl in Ed; [discriminate|].
    destruct (p x) eqn:E; [exact (IH Ed)|]. injection Ed as <- _. exact E. }
  inversion Hs as [|? ? _ Hf]; subst.
  unfold p, expired in Ha.
  constructor; [lia|].
  eapply Forall_impl; [|exact Hf]. simpl. intros item Hitem. lia.
Qed.

(** ** Exceptions *)

(** The dispatch and the sweep raise in two situations only: [IndexError] on
    a snapshot with an empty side, and [TypeError] in the sweep after a
    response whose action carries no [receive_ts] while the ledger is not
    empty. *)
Lemma step_raises (rnd : nat -> Side) (self self' : Strategy)
    (update : Update) (e : exn) :
  step rnd self update = Raised e self' ->
  (e = IndexError /\
   exists md ob,
     update = UMdUpdate md /\ MdUpdate.orderbook md = Some ob /\
     (OrderbookSnapshotUpdate.bids ob = [] \/ OrderbookSnapshotUpdate.asks ob = [])) \/
  (e = TypeError /\
   exists response,
     update = UActionResponse response /\
     action_receive_ts (ActionResponse.action response) = None /\
     active_orders self' <> []).
Proof.
  intros H. destruct update as [md|own_trade|response]; simpl in H.
  - unfold on_md_update in H. destruct (MdUpdate.orderbook md) as [ob|] eqn:Hob.
    + destruct (OrderbookSnapshotUpdate.bids ob) as [|[pb sb] bs] eqn:Eb.
      { unfold on_orderbook in H. rewrite Eb in H. simpl in H. injection H as <- _.
        left. split; [reflexivity|]. exists md, ob. auto. }
      destruct (OrderbookSnapshotUpdate.asks ob) as [|[pa sa] as'] eqn:Ea.
      { unfold on_orderbook in H. rewrite Eb in H. simpl in H. rewrite Ea in H.
        injection H as <- _. left. split; [reflexivity|]. exists md, ob. auto. }
      destruct (on_orderbook_quoted rnd self ob pb sb pa sa bs as' Eb Ea)
        as (self1 & Hrun & Hbook & Hnow & _).
      rewrite Hrun, Hbook, (cancel_old_swept self1 _ Hnow) in H. discriminate.
    + destruct (MdUpdate.trade md) as [trade|]; simpl in H;
        (destruct (orderbook self); [|discriminate]).
      * rewrite (cancel_old_swept
                   (set_current_time (Some (AnonTrade.receive_ts trade)) self)
                   _ eq_refl) in H.
        discriminate.
      * rewrite (cancel_old_swept
                   (set_current_time (Some (MdUpdate.receive_ts md)) self)
                   _ eq_refl) in H.
        discriminate.
  - rewrite (cancel_old_swept (on_own_trade own_trade self)
               (OwnTrade.receive_ts own_trade)) in H; [discriminate|].
    unfold on_own_trade. split_matches; reflexivity.
  - pose proof (dispatched_frame rnd self (UActionResponse response)) as [Ht _].
    simpl in Ht.
    destruct (cancel_old_cases (on_action_response response self))
      as [(now & _ & Hs)|[(_ & _ & Hs)|(Hnow & Hs)]];
      rewrite Hs in H; try discriminate.
    pose proof (cancel_old_no_time _ Hnow) as Hcase. rewrite Hs in Hcase.
    injection H as <- <-. right. split; [reflexivity|].
    exists response. split; [reflexivity|]. split; [congruence|].
    destruct (active_orders (on_action_response response self)); [discriminate|].
    discriminate.
Qed.

Lemma step_handled (rnd : nat -> Side) (self : Strategy) (update : Update) :
  handled update -> exists self', step rnd self update = Done self'.
Proof.
  intros Hh. destruct (step rnd self update) as [self1|e self1] eqn:Hstep; [eauto|].
  exfalso. destruct (step_raises rnd self self1 update e Hstep)
    as [(_ & md & ob & -> & Hob & Hside)|(_ & response & -> & Hts & _)];
    simpl in Hh.
  - rewrite Hob in Hh. destruct Hh as [Hb Ha]. destruct Hside; contradiction.
  - contradiction.
Qed.

Lemma step_log (rnd : nat -> Side) (self : Strategy) (update : Update) :
  log (state_of (step rnd self update)) = log self.
Proof.
  assert (Hd : log (dispatched rnd self update) = log self).
  { destruct update as [md|own_trade|response]; simpl; unfold_dispatch;
      split_matches; reflexivity. }
  destruct (step_cases rnd self update) as [->| ->]; [exact Hd|].
  rewrite <- Hd.
  destruct (cancel_old_cases (dispatched rnd self update))
    as [(now & _ & ->)|[(_ & _ & ->)|(_ & ->)]]; reflexivity.
Qed.

(** X4.  A whole iteration of the loop, log write included, raises in three
    situations only: [ValueError] when the log file is closed, before
    anything else has changed; [IndexError] on a snapshot with an empty
    side; and [TypeError] in the sweep after a response whose action carries
    no [receive_ts] while the ledger is not empty.  In particular [pop] in
    the sweep never raises [KeyError]. *)
Theorem iteration_raises_only (rnd : nat -> Side) (self self' : Strategy)
    (update : Update) (e : exn) :
  iteration rnd self update = Raised e self' ->
  (e = ValueError /\ closed (log self) = true /\ self' = self) \/
  (e = IndexError /\
   exists md ob,
     update = UMdUpdate md /\ MdUpdate.orderbook md = Some ob /\
     (OrderbookSnapshotUpdate.bids ob = [] \/ OrderbookSnapshotUpdate.asks ob = [])) \/
  (e = TypeError /\
   exists response,
     update = UActionResponse response /\
     action_receive_ts (ActionResponse.action response) = None /\
     active_orders self' <> []).
Proof.
  intros H.
  destruct (iteration_cases rnd self update) as [(Hc & Hit & _)|(_ & Hit & _)];
    rewrite Hit in H.
  - injection H as <- <-. left. auto.
  - right. exact (step_raises rnd (logged update self) self' update e H).
Qed.

Lemma run_log (rnd : nat -> Side) (updates : list Update) :
  forall self,
    Forall handled updates ->
    closed (log self) = false ->
    exists self',
      run rnd self updates = Done self' /\
      closed (log self') = false /\
      written (log self') = written (log self) ++ map Some updates.
Proof.
  induction updates as [|u us IH]; intros self Hall Hopen; simpl.
  - exists self. rewrite app_nil_r. auto.
  - inversion Hall as [|? ? Hu Hus]; subst.
    destruct (iteration_cases rnd self u) as [(Hc & _)|(_ & Hit & _)];
      [congruence|]. rewrite Hit.
    pose proof (step_log rnd (logged u self) u) as Hlog.
    destruct (step_handled rnd (logged u self) u Hu) as (self1 & Hstep).
    rewrite Hstep in *. simpl in Hlog.
    destruct (IH self1 Hus) as (self2 & Hrun & Hopen2 & Hw).
    { rewrite Hlog. reflexivity. }
    exists self2. rewrite Hw, Hlog. simpl. rewrite <- app_assoc. auto.
Qed.

(** X5.  When the log file is open, every snapshot delivered has a best bid
    and a best ask, and every acknowledged action carries its [receive_ts],
    [Strategy.run] dispatches all the updates and returns without an
    exception; it leaves the log closed, with one line per update in order
    of arrival followed by the line of the final [None]. *)
Theorem run_completes (rnd : nat -> Side) (updates : list Update)
    (self : Strategy) :
  Forall handled updates ->
  closed (log self) = false ->
  exists self',
    run_to_end rnd self updates = Done self' /\
    closed (log self') = true /\
    written (log self') = written (log self) ++ map Some updates ++ [None].
Proof.
  intros Hall Hopen.
  destruct (run_log rnd updates self Hall Hopen) as (self1 & Hrun & Hopen1 & Hw).
  unfold run_to_end, finish, log_write. rewrite Hrun, Hopen1.
  eexists. split; [reflexivity|]. simpl. rewrite Hw, <- app_assoc. auto.
Qed.

(** X6.  Until the first snapshot has been seen, a market data update without
    a snapshot only sets the clock: the iteration skips the sweep, so the
    ledger and the actions sent stay as they are, whatever the age of the
    orders. *)
Theorem no_sweep_before_first_snapshot (rnd : nat -> Side) (self : Strategy)
    (md : MdUpdate.t) :
  orderbook self = None ->
  MdUpdate.orderbook md = None ->
  exists self',
    step rnd self (UMdUpdate md) = Done self' /\
    current_time self' = effective_ts (UMdUpdate md) /\
    active_orders self' = active_orders self /\
    sim self' = sim self /\
    orderbook self' = None.
Proof.
  intros Hbook Hob. unfold step, on_md_update. simpl. rewrite Hob.
  destruct (MdUpdate.trade md); simpl; rewrite Hbook;
    eexists; (split; [reflexivity|]); simpl; auto.
Qed.

(** ** The ledger over a run *)

(** X7.  In every state of a run of a new strategy, no two orders of the
    ledger share a key and every order is stored under its own
    [client_order_id]. *)
Theorem ledger_keys_are_ids (rnd : nat -> Side) (m : float) (l : Z)
    (updates : list Update) :
  Forall (fun self => ledger_wf (active_orders self))
    (run_states rnd (init m l) updates).
Proof.
  apply run_states_wf. split; simpl; constructor.
Qed.

Lemma od_setitem_In (key : Z) (value : Order.t) (d : OrderedDict)
    (item : Z * Order.t) :
  In item (od_setitem key value d) -> item = (key, value) \/ In item d.
Proof.
  induction d as [|[k v] d IH]; simpl.
  - intros [H|[]]; auto.
  - destruct (k =? key); simpl; intros [H|H]; auto.
    destruct (IH H); auto.
Qed.

Lemma od_setitem_has (key : Z) (value : Order.t) (d : OrderedDict) :
  In (key, value) (od_setitem key value d).
Proof.
  induction d as [|[k v] d IH]; simpl; [auto|].
  destruct (k =? key); simpl; auto.
Qed.

(** Where an item of the ledger after one iteration comes from. *)
Lemma step_provenance (rnd : nat -> Side) (self : Strategy) (update : Update)
    (item : Z * Order.t) :
  In item (active_orders (state_of (step rnd self update))) ->
  In item (active_orders self) \/
  In (snd item) (placed (sim (state_of (step rnd self update)))) \/
  exists response,
    update = UActionResponse response /\
    ActionResponse.action response = ActOrder (snd item) /\
    ActionResponse.code response = OK.
Proof.
  assert (Hd : In item (active_orders (dispatched rnd self update)) ->
               In item (active_orders self) \/
               In (snd item) (placed (sim (dispatched rnd self update))) \/
               exists response,
                 update = UActionResponse response /\
                 ActionResponse.action response = ActOrder (snd item) /\
                 ActionResponse.code response = OK).
  { destruct update as [md|own_trade|response]; simpl.
    - unfold on_md_update. destruct (MdUpdate.orderbook md) as [ob|].
      + destruct (OrderbookSnapshotUpdate.bids ob) as [|[pb sb] bs] eqn:Eb.
        { unfold on_orderbook. rewrite Eb. simpl. auto. }
        destruct (OrderbookSnapshotUpdate.asks ob) as [|[pa sa] as'] eqn:Ea.
        { unfold on_orderbook. rewrite Eb. simpl. rewrite Ea. simpl. auto. }
        destruct (on_orderbook_quoted rnd self ob pb sb pa sa bs as' Eb Ea)
          as (self1 & -> & _ & _ & _ & _ & Hsim & Hact).
        simpl. rewrite Hact, Hsim, placed_app. intros Hin.
        apply od_setitem_In in Hin. destruct Hin as [->|Hin]; [|auto].
        right. left. apply in_or_app. right. simpl. auto.
      + destruct (MdUpdate.trade md); simpl; auto.
    - rewrite own_trade_active.
      destruct (od_pop (OwnTrade.client_order_id own_trade) (active_orders self))
        as [[v d]|] eqn:Hpop; [|auto].
      intros Hin. left. eapply od_pop_items; eauto.
    - rewrite action_response_active.
      destruct (ActionResponse.action response) as [order|c] eqn:Hact; [|auto].
      destruct (ActionResponse.code response) eqn:Hcode; simpl; auto.
      intros Hin. apply od_setitem_In in Hin. destruct Hin as [->|Hin]; [|auto].
      right. right. exists response. auto. }
  destruct (step_cases rnd self update) as [->| ->]; [exact Hd|].
  intros Hin. apply cancel_old_incl in Hin.
  destruct (cancel_old_frame (dispatched rnd self update))
    as (_ & _ & _ & _ & _ & _ & _ & Hp).
  rewrite Hp. exact (Hd Hin).
Qed.

Lemma run_provenance (rnd : nat -> Side) (updates : list Update) :
  forall (self : Strategy) (item : Z * Order.t),
    In item (active_orders (state_of (run rnd self updates))) ->
    In item (active_orders self) \/
    In (snd item) (placed (sim (state_of (run rnd self updates)))) \/
    exists response,
      In (UActionResponse response) (processed rnd self updates) /\
      ActionResponse.action response = ActOrder (snd item) /\
      ActionResponse.code response = OK.
Proof.
  induction updates as [|u us IH]; intros self item Hin; simpl in *; [auto|].
  destruct (iteration_cases rnd self u) as [(_ & Hit & Hlw)|(_ & Hit & Hlw)];
    rewrite ?Hit, ?Hlw in *; [auto|].
  pose proof (step_provenance rnd (logged u self) u item) as Hstep.
  destruct (step rnd (logged u self) u) as [self1|e self1] eqn:E; simpl in *.
  - destruct (IH self1 item Hin) as [H1|[H1|(r & Hr & Ha & Hc)]].
    + destruct (Hstep H1) as [H2|[H2|(r & -> & Ha & Hc)]]; [auto| |].
      * right. left.
        destruct (run_placed_extends rnd us self1) as (extra & -> & _).
        apply in_or_app. left. exact H2.
      * right. right. exists r. simpl. auto.
    + auto.
    + right. right. exists r. simpl. auto.
  - destruct (Hstep Hin) as [H2|[H2|(r & -> & Ha & Hc)]]; [auto|auto|].
    right. right. exists r. simpl. auto.
Qed.

(** X8.  Every order in the ledger after a run of a new strategy was put
    there by the strategy placing it or by an [OK] response for it among the
    updates dispatched: nothing else writes to the ledger. *)
Theorem ledger_provenance (rnd : nat -> Side) (m : float) (l : Z)
    (updates : list Update) (item : Z * Order.t) :
  In item (active_orders (state_of (run rnd (init m l) updates))) ->
  In (snd item) (placed (sim (state_of (run rnd (init m l) updates)))) \/
  exists response,
    In (UActionResponse response) (processed rnd (init m l) updates) /\
    ActionResponse.action response = ActOrder (snd item) /\
    ActionResponse.code response = OK.
Proof.
  intros Hin. destruct (run_provenance rnd updates (init m l) item Hin) as [[]|H].
  exact H.
Qed.

Lemma filter_all {A : Type} (p : A -> bool) (l : list A) :
  (forall x, In x l -> p x = true) -> filter p l = l.
Proof.
  induction l as [|a l IH]; intros H; simpl; [reflexivity|].
  rewrite (H a (or_introl eq_refl)). f_equal. apply IH. intros x Hx. apply H. now right.
Qed.

Lemma od_pop_filter (key : Z) (d : OrderedDict) :
  NoDup (od_keys d) ->
  match od_pop key d with
  | Some (_, d') => d'
  | None => d
  end = filter (fun item => negb (fst item =? key)) d.
Proof.
  induction d as [|[k v] d IH]; simpl; intros Hnd; [reflexivity|].
  inversion Hnd as [|? ? Hnotin Hnd']; subst. specialize (IH Hnd').
  destruct (Z.eqb_spec k key) as [->|Hne]; simpl.
  - symmetry. apply filter_all. intros [k' v'] Hin. simpl.
    destruct (Z.eqb_spec k' key) as [->|]; [|reflexivity].
    exfalso. apply Hnotin. apply (in_map fst) in Hin. exact Hin.
  - destruct (od_pop key d) as [[v1 d1]|]; f_equal; exact IH.
Qed.

(** X9.  The dispatch of an own trade removes from the ledger the order
    stored under the trade's [client_order_id] and nothing else, keeping the
    others in order; when no order is stored under that id the ledger is
    left as it is. *)
Theorem fill_removes_only_its_order (fill : OwnTrade.t) (self : Strategy) :
  ledger_wf (active_orders self) ->
  active_orders (on_own_trade fill self) =
  filter (fun item => negb (fst item =? OwnTrade.client_order_id fill))
    (active_orders self).
Proof.
  intros [Hnd _]. rewrite own_trade_active.
  pose proof (od_pop_filter (OwnTrade.client_order_id fill) (active_orders self) Hnd)
    as H.
  destruct (od_pop (OwnTrade.client_order_id fill) (active_orders self)) as [[v d]|];
    exact H.
Qed.

Lemma quoted_ts (rnd : nat -> Side) (self : Strategy)
    (ob : OrderbookSnapshotUpdate.t) (pb pa : float) :
  Order.client_ts (quoted rnd self ob pb pa) =
  OrderbookSnapshotUpdate.receive_ts ob + 20.
Proof.
  unfold quoted. split_matches; reflexivity.
Qed.

(** X10.  With an order lifetime of at least -20, the order placed on a
    snapshot is in the ledger at the end of that iteration: the sweep that
    follows the placement does not cancel it. *)
Theorem placed_order_is_outstanding (rnd : nat -> Side) (self : Strategy)
    (md : MdUpdate.t) (ob : OrderbookSnapshotUpdate.t) :
  MdUpdate.orderbook md = Some ob ->
  OrderbookSnapshotUpdate.bids ob <> [] ->
  OrderbookSnapshotUpdate.asks ob <> [] ->
  -20 <= order_lifetime self ->
  exists self' order,
    step rnd self (UMdUpdate md) = Done self' /\
    placed (sim self') = placed (sim self) ++ [order] /\
    In (Order.client_order_id order, order) (active_orders self').
Proof.
  intros Hob Hb Ha Hlife.
  destruct (OrderbookSnapshotUpdate.bids ob) as [|[pb sb] bs] eqn:Eb; [contradiction|].
  destruct (OrderbookSnapshotUpdate.asks ob) as [|[pa sa] as'] eqn:Ea; [contradiction|].
  destruct (on_orderbook_quoted rnd self ob pb sb pa sa bs as' Eb Ea)
    as (self1 & Hrun & Hbook & Hnow & _ & Hl & Hsim & Hact).
  exists (swept (OrderbookSnapshotUpdate.receive_ts ob) self1),
    (quoted rnd self ob pb pa).
  split; [|split].
  - unfold step, on_md_update. rewrite Hob, Hrun, Hbook.
    apply cancel_old_swept. exact Hnow.
  - simpl. rewrite placed_app, placed_cancel_of, app_nil_r, Hsim, placed_app.
    reflexivity.
  - rewrite swept_active, Hl.
    set (p := expired (OrderbookSnapshotUpdate.receive_ts ob) (order_lifetime self)).
    set (q := quoted rnd self ob pb pa) in *.
    assert (Hin : In (Order.client_order_id q, q) (active_orders self1)).
    { rewrite Hact. apply od_setitem_has. }
    rewrite <- (take_drop_while p (active_orders self1)) in Hin.
    apply in_app_or in Hin. destruct Hin as [Hin|Hin]; [|exact Hin].
    pose proof (take_while_Forall p (active_orders self1)) as Hall.
    rewrite Forall_forall in Hall. specialize (Hall _ Hin).
    unfold p, expired in Hall. simpl in Hall. unfold q in Hall.
    rewrite quoted_ts in Hall. lia.
Qed.

(** ** Ids and sides *)

Lemma after_sweep (self : Strategy) :
  (exists self',
      cancel_old self = Done self' /\
      client_order_id self' = client_order_id self /\
      placed (sim self') = placed (sim self)) \/
  (exists e, cancel_old self = Raised e self).
Proof.
  pose proof (cancel_old_frame self) as (_ & Hc & _ & _ & _ & _ & _ & Hp).
  destruct (cancel_old_cases self) as [(now & _ & Hs)|[(_ & _ & Hs)|(_ & Hs)]];
    rewrite Hs in *; simpl in *; eauto.
Qed.

(** The dispatch and the sweep of an update either leave the id counter and
    the orders placed as they were, or complete a snapshot, or raise without
    placing anything. *)
Lemma step_placement (rnd : nat -> Side) (self : Strategy) (update : Update) :
  (exists self',
      step rnd self update = Done self' /\
      client_order_id self' = client_order_id self /\
      placed (sim self') = placed (sim self)) \/
  (exists self' order,
      step rnd self update = Done self' /\
      client_order_id self' = client_order_id self + 2 /\
      placed (sim self') = placed (sim self) ++ [order] /\
      ((Order.side order = BID /\
        Order.client_order_id order = client_order_id self) \/
       (Order.side order = ASK /\
        Order.client_order_id order = client_order_id self + 1))) \/
  (exists e self',
      step rnd self update = Raised e self' /\
      placed (sim self') = placed (sim self)).
Proof.
  assert (Hsame : forall self1,
             client_order_id self1 = client_order_id self ->
             sim self1 = sim self ->
             (exists self',
                 cancel_old self1 = Done self' /\
                 client_order_id self' = client_order_id self /\
                 placed (sim self') = placed (sim self)) \/
             (exists e self',
                 cancel_old self1 = Raised e self' /\
                 placed (sim self') = placed (sim self))).
  { intros self1 Hc Hs.
    destruct (after_sweep self1) as [(s' & H1 & H2 & H3)|(e & H1)].
    - left. exists s'. rewrite <- Hc, <- Hs. auto.
    - right. exists e, self1. rewrite Hs. auto. }
  destruct update as [md|own_trade|response]; simpl.
  - unfold on_md_update. destruct (MdUpdate.orderbook md) as [ob|] eqn:Hob.
    + destruct (OrderbookSnapshotUpdate.bids ob) as [|[pb sb] bs] eqn:Eb.
      { unfold on_orderbook. rewrite Eb. simpl. right. right. eauto. }
      destruct (OrderbookSnapshotUpdate.asks ob) as [|[pa sa] as'] eqn:Ea.
      { unfold on_orderbook. rewrite Eb. simpl. rewrite Ea. simpl.
        right. right. eauto. }
      destruct (snapshot_step rnd self md ob pb sb pa sa bs as' Hob Eb Ea)
        as (self1 & Hstep & Hid & Hplaced).
      unfold step, on_md_update in Hstep. rewrite Hob in Hstep. rewrite Hstep.
      right. left. exists self1, (quoted rnd self ob pb pa).
      repeat split; auto. apply quoted_id.
    + destruct (MdUpdate.trade md) as [trade|]; simpl;
        (destruct (orderbook self);
         [|left; eexists; split; [reflexivity|]; simpl; auto]).
      * destruct (Hsame (set_current_time (Some (AnonTrade.receive_ts trade)) self)
                    eq_refl eq_refl) as [H|H]; auto.
      * destruct (Hsame (set_current_time (Some (MdUpdate.receive_ts md)) self)
                    eq_refl eq_refl) as [H|H]; auto.
  - destruct (Hsame (on_own_trade own_trade self)) as [H|H]; auto;
      unfold on_own_trade; split_matches; reflexivity.
  - destruct (Hsame (on_action_response response self)) as [H|H]; auto;
      unfold on_action_response; split_matches; reflexivity.
Qed.

Lemma run_parity (rnd : nat -> Side) (updates : list Update) :
  forall self,
    Z.odd (client_order_id self) = true ->
    Forall side_parity (placed (sim self)) ->
    Forall side_parity (placed (sim (state_of (run rnd self updates)))).
Proof.
  induction updates as [|u us IH]; intros self Hodd Hall; simpl; [exact Hall|].
  destruct (iteration_cases rnd self u) as [(_ & Hit & Hlw)|(_ & Hit & Hlw)];
    rewrite ?Hit, ?Hlw in *; [exact Hall|].
  pose proof (step_placement rnd (logged u self) u) as Hcase. simpl in Hcase.
  destruct Hcase
    as [(s1 & -> & Hc & Hp)|[(s1 & order & -> & Hc & Hp & Hside)|(e & s1 & -> & Hp)]].
  - apply IH; [rewrite Hc; exact Hodd | rewrite Hp; exact Hall].
  - apply IH.
    + rewrite Hc.
      replace (client_order_id self + 2)
        with (Z.succ (Z.succ (client_order_id self))) by lia.
      rewrite Z.odd_succ_succ. exact Hodd.
    + rewrite Hp. apply Forall_app. split; [exact Hall|].
      constructor; [|constructor]. unfold side_parity.
      destruct Hside as [[-> ->]|[-> ->]]; [exact Hodd|].
      replace (client_order_id self + 1) with (Z.succ (client_order_id self)) by lia.
      rewrite Z.even_succ. exact Hodd.
  - simpl. rewrite Hp. exact Hall.
Qed.

(** X11.  In a run of a new strategy every BID order placed has an odd
    [client_order_id] and every ASK order placed an even one: each snapshot
    draws the BID candidate's id first, from a counter that starts at 1 and
    moves by two. *)
Theorem placed_ids_parity (rnd : nat -> Side) (m : float) (l : Z)
    (updates : list Update) :
  Forall side_parity (placed (sim (state_of (run rnd (init m l) updates)))).
Proof.
  apply run_parity; [reflexivity | constructor].
Qed.

(** ** What a run leaves alone *)

Lemma step_configuration (rnd : nat -> Side) (self : Strategy) (update : Update) :
  let self' := state_of (step rnd self update) in
  max_position self' = max_position self /\
  order_lifetime self' = order_lifetime self /\
  pending_orders self' = pending_orders self.
Proof.
  cbv zeta. destruct (step_frame rnd self update) as (_ & Hm & Hl & _).
  repeat split; [exact Hm | exact Hl |].
  assert (Hd : pending_orders (dispatched rnd self update) = pending_orders self).
  { destruct update as [md|own_trade|response]; simpl; unfold_dispatch;
      split_matches; reflexivity. }
  destruct (step_cases rnd self update) as [->| ->]; [exact Hd|].
  rewrite <- Hd.
  destruct (cancel_old_cases (dispatched rnd self update))
    as [(now & _ & ->)|[(_ & _ & ->)|(_ & ->)]]; reflexivity.
Qed.

(** X12.  A run never changes its configuration and never uses
    [pending_orders]: after any run of a strategy built with [max_position]
    and [order_lifetime], both have the values given to the constructor and
    [pending_orders] is still empty. *)
Theorem run_keeps_configuration (rnd : nat -> Side) (m : float) (l : Z)
    (updates : list Update) :
  let self' := state_of (run rnd (init m l) updates) in
  max_position self' = m /\ order_lifetime self' = l /\ pending_orders self' = [].
Proof.
  cbv zeta.
  assert (H : forall self,
             max_position (state_of (run rnd self updates)) = max_position self /\
             order_lifetime (state_of (run rnd self updates)) = order_lifetime self /\
             pending_orders (state_of (run rnd self updates)) = pending_orders self).
  { induction updates as [|u us IH]; intros self; simpl; [auto|].
    destruct (iteration_cases rnd self u) as [(_ & Hit & Hlw)|(_ & Hit & Hlw)];
      rewrite ?Hit, ?Hlw in *; [auto|].
    destruct (step_configuration rnd (logged u self) u) as (Hm & Hl & Hp).
    destruct (step rnd (logged u self) u) as [self1|e self1]; simpl in *.
    - rewrite <- Hm, <- Hl, <- Hp. apply IH.
    - auto. }
  exact (H (init m l)).
Qed.

(** ** The random source *)

Lemma step_random_calls (rnd : nat -> Side) (self : Strategy) (update : Update) :
  (random_calls self <= random_calls (state_of (step rnd self update)))%nat.
Proof.
  assert (Hd : (random_calls self <= random_calls (dispatched rnd self update))%nat).
  { destruct update as [md|own_trade|response]; simpl; unfold_dispatch;
      split_matches; simpl; auto. }
  destruct (step_cases rnd self update) as [->| ->]; [exact Hd|].
  destruct (cancel_old_frame (dispatched rnd self update))
    as (_ & _ & _ & _ & _ & _ & Hr & _).
  rewrite Hr. exact Hd.
Qed.

Lemma run_random_calls (rnd : nat -> Side) (updates : list Update) :
  forall self,
    (random_calls self <= random_calls (state_of (run rnd self updates)))%nat.
Proof.
  induction updates as [|u us IH]; intros self; simpl; [auto|].
  destruct (iteration_cases rnd self u) as [(_ & Hit & Hlw)|(_ & Hit & Hlw)];
    rewrite ?Hit, ?Hlw in *; [auto|].
  pose proof (step_random_calls rnd (logged u self) u) as H.
  destruct (step rnd (logged u self) u) as [self1|e self1]; simpl in *;
    [|exact H].
  specialize (IH self1). lia.
Qed.

(** An iteration either ignores the random source, or draws once, at the
    index [random_calls], and depends on the source through that draw
    only. *)
Lemma step_draw (rnd1 : nat -> Side) (self : Strategy) (update : Update) :
  (forall rnd2, step rnd2 self update = step rnd1 self update) \/
  (random_calls (state_of (step rnd1 self update)) = S (random_calls self) /\
   forall rnd2,
     rnd2 (random_calls self) = rnd1 (random_calls self) ->
     step rnd2 self update = step rnd1 self update).
Proof.
  destruct update as [md|own_trade|response]; [|left; reflexivity..].
  unfold step, on_md_update.
  destruct (MdUpdate.orderbook md) as [ob|]; [|left; reflexivity].
  unfold on_orderbook.
  destruct (OrderbookSnapshotUpdate.bids ob) as [|[pb sb] bs]; [left; reflexivity|].
  destruct (OrderbookSnapshotUpdate.asks ob) as [|[pa sa] as']; [left; reflexivity|].
  simpl.
  destruct (position_size_quote self <? - max_position self)%float;
    [left; reflexivity|].
  destruct (max_position self <? position_size_quote self)%float;
    [left; reflexivity|].
  right. split.
  - destruct (rnd1 (random_calls self)); simpl;
      match goal with
      | |- random_calls (state_of (cancel_old ?s)) = _ =>
          destruct (cancel_old_frame s) as (_ & _ & _ & _ & _ & _ & Hr & _);
          rewrite Hr; reflexivity
      end.
  - intros rnd2 Heq. rewrite Heq. reflexivity.
Qed.

(** X13.  A run depends on the random source only through the draws it
    consumes: a second source that agrees with the first on every index the
    run draws at gives the same outcome, state and actions sent included. *)
Theorem run_depends_on_draws_consumed (rnd1 rnd2 : nat -> Side)
    (updates : list Update) :
  forall self,
    (forall n,
        (random_calls self <= n < random_calls (state_of (run rnd1 self updates)))%nat ->
        rnd2 n = rnd1 n) ->
    run rnd2 self updates = run rnd1 self updates.
Proof.
  induction updates as [|u us IH]; intros self Hagree; simpl; [reflexivity|].
  simpl in Hagree. unfold iteration in *.
  destruct (log_write (Some u) self) as [self0|e self0] eqn:Hlw; [|reflexivity].
  assert (Hrc : random_calls self0 = random_calls self).
  { unfold log_write in Hlw. destruct (closed (log self)); [discriminate|].
    injection Hlw as <-. reflexivity. }
  rewrite <- Hrc in Hagree.
  pose proof (step_random_calls rnd1 self0 u) as Hle.
  assert (Hstep : step rnd2 self0 u = step rnd1 self0 u).
  { destruct (step_draw rnd1 self0 u) as [H|[Hdraw H]]; [apply H|].
    apply H. apply Hagree. split; [lia|].
    destruct (step rnd1 self0 u) as [self1|e self1]; simpl in *.
    - pose proof (run_random_calls rnd1 us self1). lia.
    - lia. }
  rewrite Hstep. destruct (step rnd1 self0 u) as [self1|e self1]; [|reflexivity].
  apply IH. intros n Hn. apply Hagree. simpl in Hle. lia.
Qed.

(** ** Runs in which responses acknowledge live orders *)

Lemma In_od_contains (key : Z) (value : Order.t) (d : OrderedDict) :
  In (key, value) d -> od_contains key d = true.
Proof.
  intros H. apply od_contains_In. apply (in_map fst) in H. exact H.
Qed.

(** The keys of the ledger after a dispatch are those it had, or fresh ids;
    the dispatch sends no cancel request and never lowers the id counter. *)
Lemma acks_live_present (self : Strategy) (update : Update) :
  acks_live self update -> acks_present self update.
Proof.
  destruct update as [md|own_trade|response]; simpl; auto.
  destruct (ActionResponse.action response) as [order|c]; auto.
  intros H Hcode. destruct (H Hcode) as (stored & Hstored & _).
  exact (In_od_contains _ _ _ Hstored).
Qed.

Lemma dispatched_keys (rnd : nat -> Side) (self : Strategy) (update : Update) :
  acks_present self update ->
  let self' := dispatched rnd self update in
  cancelled (sim self') = cancelled (sim self) /\
  client_order_id self <= client_order_id self' /\
  forall key,
    In key (od_keys (active_orders self')) ->
    In key (od_keys (active_orders self)) \/
    client_order_id self <= key < client_order_id self'.
Proof.
  intros Hack. destruct update as [md|own_trade|response]; cbv zeta; simpl.
  - unfold on_md_update. destruct (MdUpdate.orderbook md) as [ob|].
    + destruct (OrderbookSnapshotUpdate.bids ob) as [|[pb sb] bs] eqn:Eb.
      { unfold on_orderbook. rewrite Eb. simpl. repeat split; auto; lia. }
      destruct (OrderbookSnapshotUpdate.asks ob) as [|[pa sa] as'] eqn:Ea.
      { unfold on_orderbook. rewrite Eb. simpl. rewrite Ea. simpl.
        repeat split; auto; lia. }
      destruct (on_orderbook_quoted rnd self ob pb sb pa sa bs as' Eb Ea)
        as (self1 & -> & _ & _ & Hid & _ & Hsim & Hact).
      simpl. rewrite Hsim, Hact, Hid, cancelled_app. simpl. rewrite app_nil_r.
      repeat split; [lia|]. intros key Hin.
      rewrite od_keys_setitem in Hin.
      destruct (od_contains _ (active_orders self)); [auto|].
      apply in_app_or in Hin. destruct Hin as [Hin|[<-|[]]]; [auto|].
      right. destruct (quoted_id rnd self ob pb pa) as [[_ ->]|[_ ->]]; lia.
    + destruct (MdUpdate.trade md); simpl; repeat split; auto; lia.
  - split; [unfold on_own_trade; split_matches; reflexivity|].
    split; [unfold on_own_trade; split_matches; simpl; lia|].
    rewrite own_trade_active. intros key Hin.
    destruct (od_pop (OwnTrade.client_order_id own_trade) (active_orders self))
      as [[v d]|] eqn:Hpop; [|auto].
    left. eapply od_pop_keys; eauto.
  - split; [unfold on_action_response; split_matches; reflexivity|].
    split; [unfold on_action_response; split_matches; simpl; lia|].
    rewrite action_response_active. simpl in Hack. intros key Hin.
    destruct (ActionResponse.action response) as [order|c]; [|auto].
    destruct (ActionResponse.code response); simpl in Hin; auto.
    rewrite od_keys_setitem, (Hack eq_refl) in Hin. auto.
Qed.

Lemma step_keys_issued (rnd : nat -> Side) (self : Strategy) (update : Update) :
  acks_present self update ->
  keys_issued self -> keys_issued (state_of (step rnd self update)).
Proof.
  intros Hack Hkeys. unfold keys_issued in *.
  destruct (dispatched_keys rnd self update Hack) as (_ & Hc & Hk).
  assert (Hd : Forall (fun key => key < client_order_id (dispatched rnd self update))
                 (od_keys (active_orders (dispatched rnd self update)))).
  { rewrite Forall_forall in *. intros key Hin.
    destruct (Hk key Hin) as [H|H]; [specialize (Hkeys key H)|]; lia. }
  destruct (step_cases rnd self update) as [->| ->]; [exact Hd|].
  destruct (cancel_old_frame (dispatched rnd self update)) as (_ & -> & _).
  rewrite Forall_forall in *. intros key Hin. apply Hd.
  unfold od_keys in *. apply in_map_iff in Hin. destruct Hin as (item & <- & Hin).
  apply in_map. eapply cancel_old_incl. exact Hin.
Qed.

Lemma step_cancels_settled (rnd : nat -> Side) (self : Strategy) (update : Update) :
  acks_present self update ->
  ledger_wf (active_orders self) ->
  keys_issued self ->
  cancels_settled self ->
  cancels_settled (state_of (step rnd self update)).
Proof.
  intros Hack Hwf Hkeys [Hnd Hout]. unfold keys_issued in Hkeys.
  destruct (dispatched_keys rnd self update Hack) as (Hcan & Hc & Hk).
  pose proof (dispatched_wf rnd self update Hwf) as Hwf1.
  set (self1 := dispatched rnd self update) in *.
  assert (Hd : cancels_settled self1).
  { unfold cancels_settled. rewrite Hcan. split; [exact Hnd|].
    rewrite Forall_forall in *. intros id Hin. destruct (Hout id Hin) as [Hlt Habs].
    split; [lia|]. intros Hin1. destruct (Hk id Hin1) as [H|H]; [contradiction | lia]. }
  destruct (step_cases rnd self update) as [->| ->]; [exact Hd|].
  fold self1.
  destruct (cancel_old_cases self1) as [(now & _ & ->)|[(_ & _ & ->)|(_ & ->)]];
    simpl; try exact Hd.
  destruct Hd as [Hnd1 Hout1]. destruct Hwf1 as [Hkeysnd Hids].
  set (p := expired now (order_lifetime self1)).
  pose proof (take_drop_while p (active_orders self1)) as Hsplit.
  assert (Hids' : map (fun item => Order.client_order_id (snd item))
                    (take_while p (active_orders self1)) =
                  od_keys (take_while p (active_orders self1))).
  { apply ledger_wf_ids. rewrite <- Hsplit in Hids. apply Forall_app in Hids. tauto. }
  rewrite <- Hsplit in Hkeysnd. unfold od_keys in Hkeysnd. rewrite map_app in Hkeysnd.
  assert (Htake : forall key,
             In key (od_keys (take_while p (active_orders self1))) ->
             In key (od_keys (active_orders self1))).
  { intros key Hin. rewrite <- Hsplit. unfold od_keys in *. rewrite map_app.
    apply in_or_app. now left. }
  assert (Hdrop : forall key,
             In key (od_keys (drop_while p (active_orders self1))) ->
             In key (od_keys (active_orders self1))).
  { intros key Hin. rewrite <- Hsplit. unfold od_keys in *. rewrite map_app.
    apply in_or_app. now right. }
  assert (Hissued : Forall (fun key => key < client_order_id self1)
                      (od_keys (active_orders self1))).
  { rewrite Forall_forall in *. intros key Hin.
    destruct (Hk key Hin) as [H|H]; [specialize (Hkeys key H)|]; lia. }
  unfold cancels_settled. rewrite swept_cancelled, swept_active. fold p.
  rewrite Hids'. simpl. rewrite Forall_forall in *. split.
  - apply NoDup_app; [exact Hnd1 | exact (NoDup_app_remove_r _ _ Hkeysnd)|].
    intros id Hin Hin'. destruct (Hout1 id Hin) as [_ Habs]. apply Habs.
    apply Htake. exact Hin'.
  - intros id Hin. apply in_app_or in Hin. destruct Hin as [Hin|Hin].
    + destruct (Hout1 id Hin) as [Hlt Habs]. split; [exact Hlt|].
      intros Hin'. apply Habs. apply Hdrop. exact Hin'.
    + split; [apply Hissued; apply Htake; exact Hin|].
      intros Hin'. exact (NoDup_app_excl _ _ id Hkeysnd Hin Hin').
Qed.

(** X14.  In a run of a new strategy in which every [OK] response for an
    order arrives while the id of that order is still in the ledger, no
    [client_order_id] is cancelled twice. *)
Theorem cancels_are_unique (rnd : nat -> Side) (m : float) (l : Z)
    (updates : list Update) :
  along acks_present rnd (init m l) updates ->
  NoDup (cancelled (sim (state_of (run rnd (init m l) updates)))).
Proof.
  assert (H : forall self,
             along acks_present rnd self updates ->
             ledger_wf (active_orders self) -> keys_issued self ->
             cancels_settled self ->
             cancels_settled (state_of (run rnd self updates))).
  { induction updates as [|u us IH]; intros self Halong Hwf Hkeys Hset; simpl;
      [exact Hset|].
    simpl in Halong. destruct Halong as [Hack Hrest].
    destruct (iteration_cases rnd self u) as [(_ & Hit & _)|(_ & Hit & _)];
      rewrite Hit in *; [exact Hset|].
    pose proof (step_cancels_settled rnd (logged u self) u Hack Hwf Hkeys Hset)
      as Hset1.
    pose proof (step_keys_issued rnd (logged u self) u Hack Hkeys) as Hkeys1.
    pose proof (step_wf rnd (logged u self) u Hwf) as Hwf1.
    destruct (step rnd (logged u self) u) as [self1|e self1]; simpl in *;
      [|exact Hset1].
    apply IH; assumption. }
  intros Halong. apply H; [exact Halong | | |];
    repeat split; simpl; constructor.
Qed.

(** ** Runs delivered in time order *)

Lemma od_setitem_fresh (key : Z) (value : Order.t) (d : OrderedDict) :
  od_contains key d = false -> od_setitem key value d = d ++ [(key, value)].
Proof.
  induction d as [|[k v] d IH]; simpl; [reflexivity|].
  destruct (k =? key); [discriminate|]. intros H. rewrite (IH H). reflexivity.
Qed.

Lemma od_setitem_same_ts (key : Z) (value stored : Order.t) (d : OrderedDict) :
  NoDup (od_keys d) ->
  In (key, stored) d ->
  Order.client_ts stored = Order.client_ts value ->
  stamps (od_setitem key value d) = stamps d.
Proof.
  intros Hnd Hin Hts. induction d as [|[k v] d IH]; simpl in *; [contradiction|].
  inversion Hnd as [|? ? Hnotin Hnd']; subst.
  destruct (Z.eqb_spec k key) as [->|Hne]; simpl.
  - destruct Hin as [Heq|Hin].
    + injection Heq as ->. rewrite Hts. reflexivity.
    + exfalso. apply Hnotin. apply (in_map fst) in Hin. exact Hin.
  - destruct Hin as [Heq|Hin]; [congruence|]. rewrite (IH Hnd' Hin). reflexivity.
Qed.

Lemma od_pop_stamps (key : Z) (d d' : OrderedDict) (v : Order.t) :
  od_pop key d = Some (v, d') ->
  (forall ts, In ts (stamps d') -> In ts (stamps d)) /\
  (StronglySorted Z.le (stamps d) -> StronglySorted Z.le (stamps d')).
Proof.
  intros Hpop.
  assert (Hincl : forall ts, In ts (stamps d') -> In ts (stamps d)).
  { intros ts Hin. unfold stamps in *. apply in_map_iff in Hin.
    destruct Hin as (item & <- & Hin).
    apply (in_map (fun item => Order.client_ts (snd item))).
    eapply od_pop_items; eauto. }
  split; [exact Hincl|]. clear Hincl.
  revert d' Hpop. induction d as [|[k0 v0] d IH]; simpl; intros d' Hpop Hs;
    [discriminate|].
  inversion Hs as [|? ? Hs' Hf]; subst.
  destruct (k0 =? key).
  - injection Hpop as <- <-. exact Hs'.
  - destruct (od_pop key d) as [[v1 d1]|] eqn:E; [|discriminate].
    injection Hpop as <- <-. simpl. constructor; [apply IH; auto|].
    rewrite Forall_forall in *. intros ts Hin. apply Hf.
    unfold stamps in *. apply in_map_iff in Hin. destruct Hin as (item & <- & Hin).
    apply (in_map (fun item => Order.client_ts (snd item))).
    eapply od_pop_items; eauto.
Qed.

Lemma StronglySorted_le_snoc (l : list Z) (x : Z) :
  StronglySorted Z.le l -> Forall (fun y => y <= x) l -> StronglySorted Z.le (l ++ [x]).
Proof.
  induction l as [|a l IH]; intros Hs Hf; simpl.
  - constructor; constructor.
  - inversion Hs; subst. inversion Hf; subst.
    constructor; [apply IH; assumption|].
    apply Forall_app. split; [assumption | constructor; [assumption | constructor]].
Qed.

Lemma sorted_stamps_ascending (d : OrderedDict) :
  StronglySorted Z.le (stamps d) -> ascending d.
Proof.
  intros Hs. apply StronglySorted_Sorted.
  induction d as [|item d IH]; simpl in *; [constructor|].
  inversion Hs as [|? ? Hs' Hf]; subst. constructor; [apply IH; exact Hs'|].
  unfold stamps in Hf. rewrite Forall_map in Hf. exact Hf.
Qed.

Lemma step_in_creation_order (rnd : nat -> Side) (self : Strategy)
    (update : Update) :
  acks_live self update ->
  on_time self update ->
  ledger_wf (active_orders self) ->
  keys_issued self ->
  in_creation_order self ->
  in_creation_order (state_of (step rnd self update)).
Proof.
  intros Hack (ts & Hts & Hnow) [Hnd _] Hkeys [Hsorted Hbound].
  pose proof (dispatched_frame rnd self update) as (Htime & _ & Hlife & _).
  rewrite Hts in Htime.
  assert (Hcap : Forall (fun t => t <= ts + 20) (stamps (active_orders self))).
  { destruct (current_time self) as [now|].
    - eapply Forall_impl; [|exact Hbound]. simpl. intros; lia.
    - rewrite Hbound. constructor. }
  clear Hbound Hnow.
  assert (Hd : StronglySorted Z.le (stamps (active_orders (dispatched rnd self update)))
               /\ Forall (fun t => t <= ts + 20)
                    (stamps (active_orders (dispatched rnd self update)))).
  { clear Htime Hlife. destruct update as [md|own_trade|response]; simpl in *.
    - unfold on_md_update. destruct (MdUpdate.orderbook md) as [ob|].
      + injection Hts as <-.
        destruct (OrderbookSnapshotUpdate.bids ob) as [|[pb sb] bs] eqn:Eb.
        { unfold on_orderbook. rewrite Eb. simpl. auto. }
        destruct (OrderbookSnapshotUpdate.asks ob) as [|[pa sa] as'] eqn:Ea.
        { unfold on_orderbook. rewrite Eb. simpl. rewrite Ea. simpl. auto. }
        destruct (on_orderbook_quoted rnd self ob pb sb pa sa bs as' Eb Ea)
          as (self1 & -> & _ & _ & _ & _ & _ & Hact).
        simpl. rewrite Hact, od_setitem_fresh.
        * unfold stamps in *. rewrite map_app. simpl. rewrite quoted_ts. split.
          -- apply StronglySorted_le_snoc; assumption.
          -- apply Forall_app. split; [exact Hcap|]. constructor; [lia | constructor].
        * apply od_contains_false. intros Hin. unfold keys_issued in Hkeys.
          rewrite Forall_forall in Hkeys. specialize (Hkeys _ Hin).
          destruct (quoted_id rnd self ob pb pa) as [[_ Hq]|[_ Hq]];
            rewrite Hq in Hkeys; lia.
      + destruct (MdUpdate.trade md); simpl; auto.
    - rewrite own_trade_active.
      destruct (od_pop (OwnTrade.client_order_id own_trade) (active_orders self))
        as [[v d]|] eqn:Hpop; [|auto].
      destruct (od_pop_stamps _ _ _ _ Hpop) as [Hincl Hkeep].
      split; [exact (Hkeep Hsorted)|].
      rewrite Forall_forall in *. intros t Hin. apply Hcap. apply Hincl. exact Hin.
    - rewrite action_response_active.
      destruct (ActionResponse.action response) as [order|c]; [|auto].
      destruct (ActionResponse.code response); simpl; auto.
      destruct (Hack eq_refl) as (stored & Hstored & Hsame).
      rewrite (od_setitem_same_ts _ _ stored _ Hnd Hstored Hsame). auto. }
  destruct Hd as [Hs1 Hc1].
  destruct (step_cases rnd self update) as [->| ->].
  - split; [exact Hs1|]. rewrite Htime. exact Hc1.
  - rewrite (cancel_old_swept _ ts Htime). simpl state_of.
    unfold in_creation_order. rewrite swept_active.
    assert (Ht : current_time (swept ts (dispatched rnd self update)) = Some ts)
      by exact Htime.
    rewrite Ht.
    set (p := expired ts (order_lifetime (dispatched rnd self update))).
    rewrite <- (take_drop_while p (active_orders (dispatched rnd self update)))
      in Hs1, Hc1.
    unfold stamps in *. rewrite map_app in Hs1, Hc1.
    split; [exact (StronglySorted_app_r _ _ _ Hs1)|].
    apply Forall_app in Hc1. tauto.
Qed.

(** X15.  In a run of a new strategy in which the updates carry
    non-decreasing timestamps and every [OK] response for an order arrives
    while that order is in the ledger with the same creation time, the ledger
    is in non-decreasing order of creation time after every update: the
    sweep's early stop then misses no expired order. *)
Theorem orderly_run_is_ascending (rnd : nat -> Side) (m : float) (l : Z)
    (updates : list Update) :
  along (fun self update => acks_live self update /\ on_time self update)
    rnd (init m l) updates ->
  Forall (fun self' => ascending (active_orders self'))
    (run_states rnd (init m l) updates).
Proof.
  assert (H : forall self,
             along (fun self update => acks_live self update /\ on_time self update)
               rnd self updates ->
             ledger_wf (active_orders self) -> keys_issued self ->
             in_creation_order self ->
             Forall (fun self' => ascending (active_orders self'))
               (run_states rnd self updates)).
  { induction updates as [|u us IH]; intros self Halong Hwf Hkeys Hinv; simpl;
      [constructor|].
    simpl in Halong. destruct Halong as [[Hack Htime] Hrest].
    destruct (iteration_cases rnd self u) as [(_ & Hit & Hlw)|(_ & Hit & Hlw)];
      rewrite Hit in *; rewrite Hlw; [constructor|].
    pose proof (step_in_creation_order rnd (logged u self) u Hack Htime Hwf Hkeys Hinv)
      as Hinv1.
    pose proof (step_keys_issued rnd (logged u self) u
                  (acks_live_present _ _ Hack) Hkeys) as Hkeys1.
    pose proof (step_wf rnd (logged u self) u Hwf) as Hwf1.
    destruct (step rnd (logged u self) u) as [self1|e self1]; simpl in *.
    - constructor; [apply sorted_stamps_ascending; apply Hinv1|].
      apply IH; assumption.
    - constructor; [apply sorted_stamps_ascending; apply Hinv1 | constructor]. }
  intros Halong. apply H; [exact Halong | | |].
  - split; simpl; constructor.
  - unfold keys_issued. simpl. constructor.
  - split; simpl; [constructor | reflexivity].
Qed.

(** ** Scenarios for the further properties *)

Lemma sweep_removes_expired_prefix_witness :
  exists self' removed,
    cancel_old aged = Done self' /\
    active_orders aged = removed ++ active_orders self' /\
    Forall (fun item => 121 - Order.client_ts (snd item) > order_lifetime aged)
      removed /\
    (forall item rest,
        active_orders self' = item :: rest ->
        121 - Order.client_ts (snd item) <= order_lifetime aged) /\
    sim self' =
      sim aged ++
      map (fun item =>
             ActCancel
               (OrderCancel.make (Some 121) (Order.client_order_id (snd item)) None))
        removed.
Proof. apply (sweep_removes_expired_prefix aged 121). reflexivity. Defined.

Lemma sweep_idempotent_witness :
  cancel_old (state_of (cancel_old aged)) = Done (state_of (cancel_old aged)).
Proof. apply (sweep_idempotent aged (state_of (cancel_old aged))). reflexivity. Defined.

Lemma sweep_leaves_no_expired_witness :
  exists self',
    cancel_old aged_pair = Done self' /\
    Forall (fun item =>
              125 - Order.client_ts (snd item) <= order_lifetime aged_pair)
      (active_orders self') /\
    ascending (active_orders self').
Proof.
  apply (sweep_leaves_no_expired aged_pair 125); [reflexivity|].
  repeat constructor. discriminate.
Defined.

(** The sweep of the witness removes order 1 and keeps order 3, which is 5
    old. *)
Example sweep_of_pair :
  od_keys (active_orders aged_pair) = [1; 3] /\
  od_keys (active_orders (state_of (cancel_old aged_pair))) = [3] /\
  cancelled (sim (state_of (cancel_old aged_pair))) = [1].
Proof. repeat split. Qed.

(** A heartbeat delivered to a strategy whose log is closed. *)
Lemma iteration_raises_only_witness :
  (ValueError = ValueError /\ closed (log finished) = true /\ finished = finished) \/
  (ValueError = IndexError /\
   exists md ob,
     heartbeat 5 = UMdUpdate md /\ MdUpdate.orderbook md = Some ob /\
     (OrderbookSnapshotUpdate.bids ob = [] \/ OrderbookSnapshotUpdate.asks ob = [])) \/
  (ValueError = TypeError /\
   exists response,
     heartbeat 5 = UActionResponse response /\
     action_receive_ts (ActionResponse.action response) = None /\
     active_orders finished <> []).
Proof.
  apply (iteration_raises_only (always BID) finished finished (heartbeat 5)
           ValueError).
  reflexivity.
Defined.

Lemma run_completes_witness :
  exists self',
    run_to_end (always BID) fresh
      [snapshot 0 (book 0); fill_first_bid 30; respond (first_bid_acked 40) OK] =
    Done self' /\
    closed (log self') = true /\
    written (log self') =
      written (log fresh) ++
      map Some
        [snapshot 0 (book 0); fill_first_bid 30; respond (first_bid_acked 40) OK] ++
      [None].
Proof.
  apply (run_completes (always BID)
           [snapshot 0 (book 0); fill_first_bid 30; respond (first_bid_acked 40) OK]
           fresh).
  - repeat constructor; simpl; discriminate.
  - reflexivity.
Defined.

(** An order created at 20 and stored before any snapshot is 980 old, with
    lifetime 100, when a heartbeat arrives at 1000: it is not cancelled. *)
Lemma no_sweep_before_first_snapshot_witness :
  exists self',
    step (always BID) early_ack (heartbeat 1000) = Done self' /\
    current_time self' = effective_ts (heartbeat 1000) /\
    active_orders self' = active_orders early_ack /\
    sim self' = sim early_ack /\
    orderbook self' = None.
Proof.
  apply (no_sweep_before_first_snapshot (always BID) early_ack
           (MdUpdate.make 1000 None None)); reflexivity.
Defined.

Lemma ledger_provenance_witness :
  In (snd (1, first_bid))
    (placed (sim (state_of (run (always BID) fresh [snapshot 0 (book 0)])))) \/
  exists response,
    In (UActionResponse response)
      (processed (always BID) fresh [snapshot 0 (book 0)]) /\
    ActionResponse.action response = ActOrder (snd (1, first_bid)) /\
    ActionResponse.code response = OK.
Proof.
  apply (ledger_provenance (always BID) 10000 100000000 [snapshot 0 (book 0)]
           (1, first_bid)).
  left. reflexivity.
Defined.

Lemma fill_removes_only_its_order_witness :
  active_orders
    (on_own_trade (OwnTrade.make 30 1 BID 0.001 100)
       (state_of (run (always BID) fresh [snapshot 0 (book 0)]))) =
  filter (fun item => negb (fst item =? 1))
    (active_orders (state_of (run (always BID) fresh [snapshot 0 (book 0)]))).
Proof.
  apply (fill_removes_only_its_order (OwnTrade.make 30 1 BID 0.001 100)
           (state_of (run (always BID) fresh [snapshot 0 (book 0)]))
           (conj (NoDup_cons 1 (fun H : In 1 [] => H) (NoDup_nil Z))
                 (Forall_cons (1, first_bid) eq_refl (Forall_nil _)))).
Defined.

Lemma placed_order_is_outstanding_witness :
  exists self' order,
    step (always BID) fresh (snapshot 0 (book 0)) = Done self' /\
    placed (sim self') = placed (sim fresh) ++ [order] /\
    In (Order.client_order_id order, order) (active_orders self').
Proof.
  apply (placed_order_is_outstanding (always BID) fresh
           (MdUpdate.make 0 (Some (book 0)) None) (book 0) eq_refl);
    discriminate.
Defined.

Lemma run_depends_on_draws_consumed_witness :
  run (always ASK) fresh [snapshot 0 (book 0)] =
  run ask_then_bid fresh [snapshot 0 (book 0)].
Proof.
  apply (run_depends_on_draws_consumed ask_then_bid (always ASK)
           [snapshot 0 (book 0)] fresh).
  intros n Hn. destruct n as [|n]; [reflexivity|]. simpl in Hn. lia.
Defined.

(** The response acknowledges id 1 with a creation time, 25, that is not
    the one of the stored order. *)
Lemma cancels_are_unique_witness :
  NoDup
    (cancelled
       (sim (state_of (run (always BID) (init 10000 100)
                         [snapshot 0 (book 0);
                          respond (Order.make 25 1 BID 0.001 100 (Some 30)) OK;
                          heartbeat 130])))).
Proof.
  apply (cancels_are_unique (always BID) 10000 100
           [snapshot 0 (book 0);
            respond (Order.make 25 1 BID 0.001 100 (Some 30)) OK;
            heartbeat 130]).
  vm_compute. repeat split.
Defined.

Lemma orderly_run_is_ascending_witness :
  Forall (fun self' => ascending (active_orders self'))
    (run_states (always BID) (init 10000 100)
       [snapshot 0 (book 0); respond (first_bid_acked 30) OK;
        snapshot 50 (book 50); heartbeat 121]).
Proof.
  apply (orderly_run_is_ascending (always BID) 10000 100
           [snapshot 0 (book 0); respond (first_bid_acked 30) OK;
            snapshot 50 (book 50); heartbeat 121]).
  vm_compute. repeat split.
  - exists 0. split; reflexivity.
  - intros _. exists first_bid. split; [left|]; reflexivity.
  - exists 30. split; [reflexivity | discriminate].
  - exists 50. split; [reflexivity | discriminate].
  - exists 121. split; [reflexivity | discriminate].
Defined.

(** Without the condition of X14: with lifetime 5, order 1 is cancelled at
    30, stored again by its acknowledgment at 40 and cancelled a second time
    by the sweep of that iteration. *)
Example cancelled_twice :
  cancelled
    (sim (state_of (run (always BID) (init 10000 5)
                      [snapshot 0 (book 0); heartbeat 30;
                       respond (first_bid_acked 40) OK]))) =
  [1; 1].
Proof. reflexivity. Qed.

(** After a snapshot the same heartbeat does sweep. *)
Example sweep_after_first_snapshot :
  cancelled
    (sim (state_of (run (always BID) (init 10000 100)
                      [snapshot 0 (book 0); heartbeat 1000]))) =
  [1].
Proof. reflexivity. Qed.
